(** * EpicMe MCP server: reactive capability and notification layer

    A shallow embedding of the TypeScript sources of the EpicMe journaling
    server:

    - [tools.ts]         (the [delete_entry] / [delete_tag] tool handlers),
    - [subscriptions.ts] (the URI subscription registry and its dispatch),
    - [prompts.ts], [resources.ts], [index.ts] (dynamic capabilities),
    - [video.ts]         (video subscribers and [createWrappedVideo]).

    JavaScript runs the handlers on one event loop, so an [async] function is
    embedded as the function from the events it observes, in the order it
    observes them, to the effects it performs and to its outcome. *)

From stdpp Require Import gmap strings list pretty.
From Stdlib Require Import Ascii QArith Qminmax Lqa.

Close Scope Q_scope.
Local Open Scope string_scope.

(** ** Shared vocabulary *)

(** The double quote and the line feed, the two characters of the
    source's template literals that are written with an escape. *)
Definition dquote : string := String (Ascii.ascii_of_nat 34) EmptyString.
Definition newline : string := String (Ascii.ascii_of_nat 10) EmptyString.

(** A [Promise]'s settlement or a function's completion: a value, or the
    message of the [Error] that was thrown. *)
Inductive Result (A : Type) : Type :=
| Ok (a : A)
| Err (msg : string).
Arguments Ok {A} a.
Arguments Err {A} msg.

(** Record identifiers are SQLite row ids; [`${id}`] prints them in
    decimal, which is what [pretty] does on [N]. *)
Definition Id := N.
Bind Scope N_scope with Id.

(** The two record kinds of the journal, with the fields the sources read. *)
Record Entry := {
  entry_id : Id;
  entry_title : string;
  entry_content : string;
  entry_tags : list Id
}.

Record Tag := {
  tag_id : Id;
  tag_name : string
}.

(** ** tools.ts: the deletion tools *)

Module Tools.

(** Modelled from the spec: the record store, [db/index.ts], whose source
    is not available.  The spec describes it as an ordinary keyed table
    with [getEntry(id) -> optional record], [getTag(id)] and deletion by
    key, which is what these definitions are. *)
Record DB := {
  db_entries : gmap Id Entry;
  db_tags : gmap Id Tag
}.

Definition getEntry (db : DB) (id : Id) : option Entry := db_entries db !! id.
Definition deleteEntry (db : DB) (id : Id) : DB :=
  {| db_entries := delete id (db_entries db); db_tags := db_tags db |}.

(** One item of a tool's [content] array.  [createText] applied to a
    string gives [Text]; applied to the structured content it gives the
    JSON rendering of that value, kept here as the value itself. *)
Inductive ContentItem (A : Type) : Type :=
| Text (text : string)
| JsonText (value : A)
| ResourceLink (uri name description mimeType : string).
Arguments Text {A} text.
Arguments JsonText {A} value.
Arguments ResourceLink {A} uri name description mimeType.

Record ToolResult (A : Type) := {
  structuredContent : A;
  content : list (ContentItem A)
}.
Arguments structuredContent {A} _.
Arguments content {A} _.

Record DeletedEntry := { de_success : bool; de_entry : Entry }.

Definition createEntryResourceLink {A} (e : Entry) : ContentItem A :=
  ResourceLink ("epicme://entries/" +:+ pretty (entry_id e))
               (entry_title e)
               ("Journal Entry: " +:+ dquote +:+ entry_title e +:+ dquote)
               "application/json".


Definition entry_not_found (id : Id) : string :=
  "Entry with ID " +:+ dquote +:+ pretty id +:+ dquote +:+ " not found".


(** The [delete_entry] handler: look the entry up, fail through
    [invariant] when it is absent, delete it otherwise and answer with the
    entry as it was read before the deletion. *)
Definition delete_entry (db : DB) (id : Id) : DB * Result (ToolResult DeletedEntry) :=
  match getEntry db id with
  | None => (db, Err (entry_not_found id))
  | Some existingEntry =>
      let db' := deleteEntry db id in
      let structured := {| de_success := true; de_entry := existingEntry |} in
      (db', Ok {| structuredContent := structured;
                  content :=
                    [ Text ("Entry " +:+ dquote +:+ entry_title existingEntry +:+ dquote
                            +:+ " (ID: " +:+ pretty id +:+ ") deleted successfully");
                      createEntryResourceLink existingEntry;
                      JsonText structured ] |})
  end.



(** The [get_entry] handler: a lookup that fails through [invariant]. *)
Definition get_entry (db : DB) (id : Id) : DB * Result (ToolResult Entry) :=
  match getEntry db id with
  | None => (db, Err (entry_not_found id))
  | Some entry =>
      (db, Ok {| structuredContent := entry;
                 content := [ createEntryResourceLink entry; JsonText entry ] |})
  end.

End Tools.

(** ** subscriptions.ts: the URI subscription registry *)

Module Subscriptions.

(** The change descriptor handed to database subscribers: both fields
    are optional in the source ([changes.entries ?? []]). *)
Record Changes := {
  entries : option (list Id);
  tags : option (list Id)
}.

(** A [notifications/resources/updated] message. *)
Record Notification := {
  uri : string;
  title : string
}.

Definition entry_uri (entryId : Id) : string := "epicme://entries/" +:+ pretty entryId.
Definition tag_uri (tagId : Id) : string := "epicme://tags/" +:+ pretty tagId.
Definition video_uri (video : string) : string := "epicme://videos/" +:+ video.

Definition entry_updated (entryId : Id) : Notification :=
  {| uri := entry_uri entryId; title := "Entry " +:+ pretty entryId |}.
Definition tag_updated (tagId : Id) : Notification :=
  {| uri := tag_uri tagId; title := "Tag " +:+ pretty tagId |}.
Definition video_updated (video : string) : Notification :=
  {| uri := video_uri video; title := "Video " +:+ video |}.

(** The body shared by the three [for ... of] loops: walk the items in
    order and send the item's notification when its URI is a member of
    [uriSubscriptions].  The notifications sent are returned in order; the
    transport is taken to accept each of them. *)
Fixpoint notify_each {X : Type} (mk : X → Notification)
         (uriSubscriptions : gset string) (items : list X) : list Notification :=
  match items with
  | [] => []
  | x :: rest =>
      if bool_decide (uri (mk x) ∈ uriSubscriptions)
      then mk x :: notify_each mk uriSubscriptions rest
      else notify_each mk uriSubscriptions rest
  end.

(** The database subscriber: entries first, then tags. *)
Definition onDbChange (uriSubscriptions : gset string) (changes : Changes)
  : list Notification :=
  (notify_each entry_updated uriSubscriptions (default [] (entries changes))
   ++ notify_each tag_updated uriSubscriptions (default [] (tags changes)))%list.

(** The video subscriber: it lists the video directory afresh. *)
Definition onVideoChange (uriSubscriptions : gset string) (videos : list string)
  : list Notification :=
  notify_each video_updated uriSubscriptions videos.

(** What the registry reacts to: the two client requests and the two
    change sources. *)
Inductive Event :=
| SubscribeRequest (u : string)
| UnsubscribeRequest (u : string)
| DbChange (changes : Changes)
| VideoChange (videos : list string).

(** One event: the new subscription set and the notifications sent. *)
Definition step (uriSubscriptions : gset string) (e : Event)
  : gset string * list Notification :=
  match e with
  | SubscribeRequest u => ({[u]} ∪ uriSubscriptions, [])
  | UnsubscribeRequest u => (uriSubscriptions ∖ {[u]}, [])
  | DbChange changes => (uriSubscriptions, onDbChange uriSubscriptions changes)
  | VideoChange videos => (uriSubscriptions, onVideoChange uriSubscriptions videos)
  end.

Fixpoint run (uriSubscriptions : gset string) (events : list Event)
  : gset string * list Notification :=
  match events with
  | [] => (uriSubscriptions, [])
  | e :: rest =>
      let '(subs', sent) := step uriSubscriptions e in
      let '(subs'', sent') := run subs' rest in
      (subs'', (sent ++ sent')%list)
  end.


(** How many of the notifications are addressed to [u], and how often
    [id] is listed. *)
Definition notified (u : string) (ns : list Notification) : nat :=
  length (List.filter (λ n, String.eqb (uri n) u) ns).

Definition occurrences (id : Id) (ids : list Id) : nat :=
  length (List.filter (N.eqb id) ids).

End Subscriptions.

(** ** prompts.ts, resources.ts, index.ts: the dynamic capabilities *)

Module Server.

(** The five registrations whose availability follows the data: one
    prompt ([prompts.ts]) and four resources ([resources.ts]). *)
Inductive Capability :=
| SuggestTagsPrompt
| TagListResource
| TagsResource
| EntryResource
| VideoResource.

(** The two list-changed notifications of the protocol. *)
Inductive ListChanged :=
| PromptListChanged
| ResourceListChanged.

(** The [enabled] field of each registration. *)
Record Flags := {
  suggestTagsPrompt : bool;
  tagListResource : bool;
  tagsResource : bool;
  entryResource : bool;
  videoResource : bool
}.

Definition enabled (c : Capability) (f : Flags) : bool :=
  match c with
  | SuggestTagsPrompt => suggestTagsPrompt f
  | TagListResource => tagListResource f
  | TagsResource => tagsResource f
  | EntryResource => entryResource f
  | VideoResource => videoResource f
  end.

Definition set_enabled (c : Capability) (b : bool) (f : Flags) : Flags :=
  match c with
  | SuggestTagsPrompt =>
      {| suggestTagsPrompt := b; tagListResource := tagListResource f;
         tagsResource := tagsResource f; entryResource := entryResource f;
         videoResource := videoResource f |}
  | TagListResource =>
      {| suggestTagsPrompt := suggestTagsPrompt f; tagListResource := b;
         tagsResource := tagsResource f; entryResource := entryResource f;
         videoResource := videoResource f |}
  | TagsResource =>
      {| suggestTagsPrompt := suggestTagsPrompt f; tagListResource := tagListResource f;
         tagsResource := b; entryResource := entryResource f;
         videoResource := videoResource f |}
  | EntryResource =>
      {| suggestTagsPrompt := suggestTagsPrompt f; tagListResource := tagListResource f;
         tagsResource := tagsResource f; entryResource := b;
         videoResource := videoResource f |}
  | VideoResource =>
      {| suggestTagsPrompt := suggestTagsPrompt f; tagListResource := tagListResource f;
         tagsResource := tagsResource f; entryResource := entryResource f;
         videoResource := b |}
  end.

(** The SDK's [McpServer] as far as the sources rely on it.  The class is
    an external library; what is kept of it is what the sources state
    about it: [enable()] and [disable()] store the flag and send the
    list-changed notification of the registration's kind "to connected
    clients" ([prompts.ts], comment above [updatePrompts]), and
    [sendResourceListChanged()] does the same without touching a flag.
    [connected] is false until [server.connect(transport)]; [sent] is what
    went out on the transport, oldest first. *)
Record McpServer := {
  connected : bool;
  flags : Flags;
  sent : list ListChanged
}.

Definition send (n : ListChanged) (s : McpServer) : McpServer :=
  if connected s
  then {| connected := connected s; flags := flags s; sent := (sent s ++ [n])%list |}
  else s.

Definition sendResourceListChanged : McpServer → McpServer := send ResourceListChanged.
Definition sendPromptListChanged : McpServer → McpServer := send PromptListChanged.

Definition list_changed_of (c : Capability) : ListChanged :=
  match c with
  | SuggestTagsPrompt => PromptListChanged
  | _ => ResourceListChanged
  end.

Definition update_enabled (c : Capability) (b : bool) (s : McpServer) : McpServer :=
  send (list_changed_of c)
       {| connected := connected s; flags := set_enabled c b (flags s); sent := sent s |}.

Definition enable (c : Capability) : McpServer → McpServer := update_enabled c true.
Definition disable (c : Capability) : McpServer → McpServer := update_enabled c false.

Definition connect (s : McpServer) : McpServer :=
  {| connected := true; flags := flags s; sent := sent s |}.

(** What a handler reads when it runs: [agent.db.getEntries()],
    [agent.db.getTags()] and [listVideos()]. *)
Record Domain := {
  entries : list Entry;
  tags : list Tag;
  videos : list string
}.

(** [if (!r.enabled) r.enable()] and [if (r.enabled) r.disable()]. *)
Definition enable_if_disabled (c : Capability) (s : McpServer) : McpServer :=
  if negb (enabled c (flags s)) then enable c s else s.
Definition disable_if_enabled (c : Capability) (s : McpServer) : McpServer :=
  if enabled c (flags s) then disable c s else s.

(** [updatePrompts] of [prompts.ts]. *)
Definition updatePrompts (d : Domain) (s : McpServer) : McpServer :=
  if (0 <? length (entries d))%nat
  then enable_if_disabled SuggestTagsPrompt s
  else disable_if_enabled SuggestTagsPrompt s.

(** [updateResources] of [resources.ts]: tags, then entries, then
    videos. *)
Definition updateResources (d : Domain) (s : McpServer) : McpServer :=
  let s1 :=
    if (0 <? length (tags d))%nat
    then enable_if_disabled TagsResource (enable_if_disabled TagListResource s)
    else disable_if_enabled TagsResource (disable_if_enabled TagListResource s) in
  let s2 :=
    if (0 <? length (entries d))%nat
    then enable_if_disabled EntryResource s1
    else disable_if_enabled EntryResource s1 in
  if (0 <? length (videos d))%nat
  then enable_if_disabled VideoResource s2
  else disable_if_enabled VideoResource s2.

(** A subscriber of the database or of the video module: it reads the
    current data and acts on the server. *)
Definition Handler := Domain → McpServer → McpServer.

(** The agent: the server and the two subscriber lists, in registration
    order. *)
Record Agent := {
  server : McpServer;
  db_subscribers : list Handler;
  video_subscribers : list Handler
}.

Definition db_subscribe (h : Handler) (a : Agent) : Agent :=
  {| server := server a;
     db_subscribers := (db_subscribers a ++ [h])%list;
     video_subscribers := video_subscribers a |}.

Definition subscribeToVideoChanges (h : Handler) (a : Agent) : Agent :=
  {| server := server a;
     db_subscribers := db_subscribers a;
     video_subscribers := (video_subscribers a ++ [h])%list |}.

Definition on_server (f : McpServer → McpServer) (a : Agent) : Agent :=
  {| server := f (server a);
     db_subscribers := db_subscribers a;
     video_subscribers := video_subscribers a |}.

(** [initializeResources]: the two unconditional notifiers, the
    registrations, the subscription of [updateResources] and its first
    run. *)
Definition initializeResources (d : Domain) (a : Agent) : Agent :=
  let a := db_subscribe (λ _, sendResourceListChanged) a in
  let a := subscribeToVideoChanges (λ _, sendResourceListChanged) a in
  let a := db_subscribe updateResources a in
  on_server (updateResources d) a.

(** [initializePrompts]: the registration, the subscription of
    [updatePrompts] and its first run. *)
Definition initializePrompts (d : Domain) (a : Agent) : Agent :=
  let a := db_subscribe updatePrompts a in
  on_server (updatePrompts d) a.

(** [EpicMeMCP.init]: tools (no subscriber, no flag), resources,
    prompts. *)
Definition init (d : Domain) (a : Agent) : Agent :=
  initializePrompts d (initializeResources d a).

(** A fresh [EpicMeMCP]: no transport, nothing sent, no subscriber.  The
    flag a registration starts with is the SDK's choice and is left
    open. *)
Definition new_agent (flags0 : Flags) : Agent :=
  {| server := {| connected := false; flags := flags0; sent := [] |};
     db_subscribers := [];
     video_subscribers := [] |}.

(** [main] of [index.ts]: [init] first, [connect] afterwards. *)
Definition main (flags0 : Flags) (d : Domain) : Agent :=
  on_server connect (init d (new_agent flags0)).

(** Modelled from the spec: the publish of the change bus, which lives in
    [db/index.ts], whose source is not available.  "Handlers themselves
    may be asynchronous and are awaited in sequence, registration
    order." *)
Definition publish (hs : list Handler) (d : Domain) (s : McpServer) : McpServer :=
  fold_left (λ s h, h d s) hs s.

(** The running system: the agent and the data it reads. *)
Record World := {
  agent : Agent;
  domain : Domain
}.

(** What happens to a running server: a mutation of the store, after
    which the database publishes; or a change of the video directory,
    after which the video module notifies its subscribers. *)
Inductive Event :=
| DbMutation (m : Domain → Domain)
| VideoMutation (m : list string → list string).

Definition step (w : World) (e : Event) : World :=
  match e with
  | DbMutation m =>
      let d := m (domain w) in
      {| agent := on_server (publish (db_subscribers (agent w)) d) (agent w);
         domain := d |}
  | VideoMutation m =>
      let d := {| entries := entries (domain w); tags := tags (domain w);
                  videos := m (videos (domain w)) |} in
      {| agent := on_server (publish (video_subscribers (agent w)) d) (agent w);
         domain := d |}
  end.

Definition run (w : World) (events : list Event) : World := fold_left step events w.

(** The running system right after [main] on the data [d]. *)
Definition boot (flags0 : Flags) (d : Domain) : World :=
  {| agent := main flags0 d; domain := d |}.

(** The predicate of each capability on the data. *)
Definition predicate (c : Capability) (d : Domain) : bool :=
  match c with
  | SuggestTagsPrompt => (0 <? length (entries d))%nat
  | TagListResource => (0 <? length (tags d))%nat
  | TagsResource => (0 <? length (tags d))%nat
  | EntryResource => (0 <? length (entries d))%nat
  | VideoResource => (0 <? length (videos d))%nat
  end.

(** The capabilities in the order in which one database tick visits
    them. *)
Definition capabilities : list Capability :=
  [TagListResource; TagsResource; EntryResource; VideoResource; SuggestTagsPrompt].

(** The capabilities whose flag differs between [f] and [f']. *)
Definition flipped (f f' : Flags) : list Capability :=
  filter (λ c, enabled c f ≠ enabled c f') capabilities.

(** The database subscribers in the order in which [init] registers
    them, and one database tick of the running system on the data [d]. *)
Definition registered_db_subscribers : list Handler :=
  [ (λ _, sendResourceListChanged); updateResources; updatePrompts ].

Definition db_tick (d : Domain) (s : McpServer) : McpServer :=
  publish registered_db_subscribers d s.

(** The batching contract as the specification words it, for one tick
    from [s] on the data [d]: something is sent iff a flag flipped, and at
    most one notification goes out. *)
Definition batched_iff_flipped (d : Domain) (s : McpServer) : Prop :=
  ∃ emitted,
    sent (db_tick d s) = (sent s ++ emitted)%list
    ∧ (emitted ≠ [] ↔ flipped (flags s) (flags (db_tick d s)) ≠ [])
    ∧ (length emitted ≤ 1)%nat.

End Server.

(** ** video.ts: video subscribers and [createWrappedVideo] *)

Module Video.

(** *** Subscribers *)

(** A registered callback [() => void]: its identity (a JavaScript [Set]
    holds a function once) and what a call to it does, namely return or
    throw the error with the given message. *)
Record Subscriber := {
  sub_id : nat;
  sub_throws : option string
}.

(** What [createWrappedVideo] does to the outside, in order. *)
Inductive Effect :=
| OnProgress (progress : Q)
| Mkdir
| Spawn (scene : list (string * string * nat * Q * Q))
| AddAbortListener
| RemoveAbortListener
| Kill
| Invoked (id : nat).

Definition has_id (id : nat) (s : Subscriber) : bool := Nat.eqb (sub_id s) id.

(** [subscribers.add(subscriber)]: insertion order, no duplicate. *)
Definition subscribe (subscriber : Subscriber) (subscribers : list Subscriber)
  : list Subscriber :=
  if existsb (has_id (sub_id subscriber)) subscribers
  then subscribers
  else (subscribers ++ [subscriber])%list.

(** The function [subscribe] returns: [subscribers.delete(subscriber)]. *)
Definition unsubscribe (subscriber : Subscriber) (subscribers : list Subscriber)
  : list Subscriber :=
  List.filter (λ s, negb (has_id (sub_id subscriber) s)) subscribers.

(** [notifySubscribers]: a plain [for ... of] over the set.  A call that
    throws leaves the loop and the function with that error. *)
Fixpoint notifySubscribers (subscribers : list Subscriber) : list Effect * Result unit :=
  match subscribers with
  | [] => ([], Ok tt)
  | subscriber :: rest =>
      match sub_throws subscriber with
      | Some e => ([Invoked (sub_id subscriber)], Err e)
      | None =>
          let '(effects, r) := notifySubscribers rest in
          (Invoked (sub_id subscriber) :: effects, r)
      end
  end.

(** *** Scene construction *)

(** [content.length], the number of code units of the content. *)
Definition content_length (e : Entry) : nat := String.length (entry_content e).

(** [longest?.content.length ?? 0] *)
Definition length_or_0 (e : option Entry) : nat :=
  match e with
  | Some e => content_length e
  | None => 0
  end.

(** The two [reduce] calls, started at [entries[0]]. *)
Definition longestEntry (entries : list Entry) : option Entry :=
  fold_left (λ longest entry,
               if (length_or_0 longest <? content_length entry)%nat
               then Some entry else longest)
            entries (head entries).

Definition shortestEntry (entries : list Entry) : option Entry :=
  fold_left (λ shortest entry,
               if (content_length entry <? length_or_0 shortest)%nat
               then Some entry else shortest)
            entries (head entries).

(** One element of [texts]. *)
Record TextSpec := {
  text : string;
  color : string;
  fontsize : nat
}.

(** What the scene reads besides its arguments: [userInfo().username]
    and the formatted [new Date()]. *)
Record Ambient := {
  username : string;
  today : string
}.

Definition mk_text (t c : string) : option TextSpec :=
  Some {| text := t; color := c; fontsize := 72 |}.

(** The array literal of the source followed by [.filter(Boolean)]. *)
Definition texts (amb : Ambient) (entries : list Entry) (tags : list Tag) (year : Z)
  : list TextSpec :=
  omap id
    [ mk_text ("Hello " +:+ username amb +:+ "!") "#FF1493";
      mk_text ("It is " +:+ today amb) "#33FF99";
      mk_text ("Here is your EpicMe wrapped video for " +:+ pretty year) "#66CCFF";
      mk_text ("You wrote " +:+ pretty (length entries) +:+ " entries in " +:+ pretty year)
              "#ff69b4";
      match longestEntry entries with
      | Some e =>
          mk_text ("Your longest entry was " +:+ pretty (content_length e)
                   +:+ " characters" +:+ newline +:+ dquote +:+ entry_title e
                   +:+ dquote +:+ " ") "#FF0000"
      | None => None
      end;
      match shortestEntry entries with
      | Some e =>
          mk_text ("Your shortest entry was " +:+ pretty (content_length e)
                   +:+ " characters" +:+ newline +:+ dquote +:+ entry_title e
                   +:+ dquote +:+ " ") "#B39DDB"
      | None => None
      end;
      if (length entries <? 1)%nat
      then mk_text ("You did not write any entries in " +:+ pretty year) "#D2B48C"
      else None;
      if (0 <? length tags)%nat
      then mk_text ("And you created " +:+ pretty (length tags) +:+ " tags in "
                    +:+ pretty year) "#FFB300"
      else mk_text ("You did not create any tags in " +:+ pretty year) "#D2B48C";
      mk_text "Good job!" "red";
      mk_text ("Keep Journaling in " +:+ pretty (year + 1)%Z +:+ "!") "#ffa500" ].

Definition totalDurationSeconds : Q := 60.

(** A text with its [timings] entry.  The rendering of an overlay into an
    ffmpeg [drawtext] filter string prints these numbers as floating
    point and is not part of the model. *)
Record Overlay := {
  spec : TextSpec;
  startTime : Q;
  endTime : Q
}.

Definition overlays (amb : Ambient) (entries : list Entry) (tags : list Tag) (year : Z)
  : list Overlay :=
  let texts := texts amb entries tags year in
  let numTexts := length texts in
  let perTextDuration := (totalDurationSeconds / inject_Z (Z.of_nat numTexts))%Q in
  imap (λ i t, {| spec := t;
                  startTime := (perTextDuration * inject_Z (Z.of_nat i))%Q;
                  endTime := (perTextDuration * inject_Z (Z.of_nat (i + 1)))%Q |})
       texts.

(** *** The progress stream of the renderer *)

Definition digit (c : Ascii.ascii) : option nat :=
  let n := Ascii.nat_of_ascii c in
  if ((48 <=? n) && (n <=? 57))%nat then Some (n - 48)%nat else None.

(** [(\d{2})] followed by the separator [sep]. *)
Definition two_digits (a b : Ascii.ascii) : option nat :=
  match digit a, digit b with
  | Some x, Some y => Some (10 * x + y)%nat
  | _, _ => None
  end.

Fixpoint starts_with (p s : list Ascii.ascii) : bool :=
  match p, s with
  | [], _ => true
  | a :: p', b :: s' => Ascii.eqb a b && starts_with p' s'
  | _ :: _, [] => false
  end.

(** The pattern [time=(\d{2}):(\d{2}):(\d{2})\.(\d{2})] anchored at the
    start of [s]. *)
Definition time_here (s : list Ascii.ascii) : option (nat * nat * nat * nat) :=
  if starts_with (String.list_ascii_of_string "time=") s then
    match drop 5 s with
    | h1 :: h2 :: c1 :: m1 :: m2 :: c2 :: s1 :: s2 :: c3 :: f1 :: f2 :: _ =>
        if Ascii.eqb c1 ":"%char && Ascii.eqb c2 ":"%char && Ascii.eqb c3 "."%char then
          match two_digits h1 h2, two_digits m1 m2, two_digits s1 s2, two_digits f1 f2 with
          | Some h, Some m, Some s, Some f => Some (h, m, s, f)
          | _, _, _, _ => None
          end
        else None
    | _ => None
    end
  else None.

(** [str.match(...)]: the leftmost position at which the pattern
    matches. *)
Fixpoint match_time (s : list Ascii.ascii) : option (nat * nat * nat * nat) :=
  match time_here s with
  | Some t => Some t
  | None =>
      match s with
      | [] => None
      | _ :: rest => match_time rest
      end
  end.

Definition Qnat (n : nat) : Q := inject_Z (Z.of_nat n).

(** [Math.min(currentSeconds / totalDurationSeconds, 1)] *)
Definition progress_of_time (t : nat * nat * nat * nat) : Q :=
  let '(hours, minutes, seconds, fraction) := t in
  let currentSeconds :=
    (Qnat hours * 3600 + Qnat minutes * 60 + Qnat seconds + Qnat fraction / 100)%Q in
  Qmin (currentSeconds / totalDurationSeconds) 1.

(** The [data] listener on the renderer's standard error. *)
Definition onStderr (data : string) : list Effect :=
  match match_time (String.list_ascii_of_string data) with
  | Some t => [OnProgress (progress_of_time t)]
  | None => []
  end.

(** *** The run of [createWrappedVideo] *)

(** What can happen while the function is suspended at an [await]: the
    signal's [abort] event, the timer of the mock loop, the settlement of
    [fs.mkdir], a chunk on the renderer's standard error, the renderer's
    [close] with its exit code ([null] when a signal ended it). *)
Inductive Event :=
| Abort
| TimerFired
| MkdirDone (r : Result unit)
| StderrData (data : string)
| Close (code : option Z).

(** How the call ends; [Pending] when the events given do not bring it
    to an end. *)
Inductive Outcome :=
| Returned (videoUri : string)
| Thrown (msg : string)
| Pending.

Record Args := {
  entries : list Entry;
  tags : list Tag;
  year : Z;
  mockTime : option Q
}.

Definition cancelled (year : Z) : string :=
  "Creating Wrapped Video for " +:+ pretty year +:+ " was cancelled".
Definition videoFilename (year : Z) : string := "wrapped-" +:+ pretty year +:+ ".mp4".
Definition videoUri (year : Z) : string := "epicme://videos/" +:+ videoFilename year.

Definition Qlt_bool (x y : Q) : bool :=
  match (x ?= y)%Q with
  | Lt => true
  | _ => false
  end.

(** One pass of the mock loop from the loop test to the [await]; [rest]
    is what the run does from the sleep on. *)
Definition mock_iteration (year : Z) (mockTime i : Q) (aborted : bool)
           (rest : list Effect * Outcome) : list Effect * Outcome :=
  if Qlt_bool i mockTime then
    if aborted then ([], Thrown (cancelled year))
    else
      let progress := (i / mockTime)%Q in
      if Qle_bool 1 progress then ([OnProgress 1], Returned (videoUri year))
      else (OnProgress progress :: rest.1, rest.2)
  else ([OnProgress 1], Returned (videoUri year)).

(** The mock loop suspended in the sleep of the pass whose counter is
    [i]. *)
Fixpoint mock_sleep (year : Z) (mockTime step i : Q) (aborted : bool)
         (events : list Event) : list Effect * Outcome :=
  match events with
  | [] => ([], Pending)
  | Abort :: rest => mock_sleep year mockTime step i true rest
  | TimerFired :: rest =>
      let i' := (i + step)%Q in
      mock_iteration year mockTime i' aborted
                     (mock_sleep year mockTime step i' aborted rest)
  | _ :: rest => mock_sleep year mockTime step i aborted rest
  end.

Definition mock_run (year : Z) (mockTime : Q) (events : list Event)
  : list Effect * Outcome :=
  let step := (mockTime / 10)%Q in
  mock_iteration year mockTime 0 false (mock_sleep year mockTime step 0 false events).

Definition exit_message (code : option Z) : string :=
  "ffmpeg exited with code " +:+ match code with Some c => pretty c | None => "null" end.

(** The renderer is running and the abort listener is registered.
    [aborted] is [signal.aborted], [killed] is [ffmpeg.killed].  An abort
    event is dispatched once, so none is observed when [aborted] already
    holds. *)
Fixpoint ffmpeg_running (year : Z) (subscribers : list Subscriber)
         (aborted killed : bool) (events : list Event) : list Effect * Outcome :=
  match events with
  | [] => ([], Pending)
  | Abort :: rest =>
      if aborted then ffmpeg_running year subscribers aborted killed rest
      else if killed then ffmpeg_running year subscribers true killed rest
      else
        let '(effects, out) := ffmpeg_running year subscribers true true rest in
        (Kill :: effects, out)
  | StderrData data :: rest =>
      let '(effects, out) := ffmpeg_running year subscribers aborted killed rest in
      ((onStderr data ++ effects)%list, out)
  | Close code :: _ =>
      if aborted then ([RemoveAbortListener], Thrown (cancelled year))
      else
        match code with
        | Some 0%Z =>
            let '(effects, r) := notifySubscribers subscribers in
            (OnProgress 1 :: RemoveAbortListener :: effects,
             match r with
             | Ok _ => Returned (videoUri year)
             | Err e => Thrown e
             end)
        | _ => ([RemoveAbortListener], Thrown (exit_message code))
        end
  | _ :: rest => ffmpeg_running year subscribers aborted killed rest
  end.

(** Suspended in [await fs.mkdir]: no renderer and no listener yet. *)
Fixpoint awaiting_mkdir (year : Z) (subscribers : list Subscriber)
         (scene : list (string * string * nat * Q * Q))
         (aborted : bool) (events : list Event) : list Effect * Outcome :=
  match events with
  | [] => ([], Pending)
  | Abort :: rest => awaiting_mkdir year subscribers scene true rest
  | MkdirDone (Ok _) :: rest =>
      let '(effects, out) := ffmpeg_running year subscribers aborted false rest in
      (Spawn scene :: AddAbortListener :: effects, out)
  | MkdirDone (Err e) :: _ => ([], Thrown e)
  | _ :: rest => awaiting_mkdir year subscribers scene aborted rest
  end.

(** The scene as handed to the renderer. *)
Definition scene_of (os : list Overlay) : list (string * string * nat * Q * Q) :=
  map (λ o, (text (spec o), color (spec o), fontsize (spec o), startTime o, endTime o)) os.

Definition real_run (amb : Ambient) (subscribers : list Subscriber)
           (entries : list Entry) (tags : list Tag) (year : Z)
           (events : list Event) : list Effect * Outcome :=
  let scene := scene_of (overlays amb entries tags year) in
  let '(effects, out) := awaiting_mkdir year subscribers scene false events in
  (Mkdir :: effects, out).

(** [mockTime && mockTime > 0] *)
Definition mock_mode (args : Args) : option Q :=
  match mockTime args with
  | Some t => if Qlt_bool 0 t then Some t else None
  | None => None
  end.

(** [createWrappedVideo]: [aborted] is [signal?.aborted] at the call,
    [events] is what happens afterwards.  The [onProgress] callback is
    taken as given (without it there is nothing to forward), and a call
    without a signal is a call whose signal never aborts. *)
Definition createWrappedVideo (amb : Ambient) (subscribers : list Subscriber)
           (args : Args) (aborted : bool) (events : list Event)
  : list Effect * Outcome :=
  if aborted then ([], Thrown (cancelled (year args)))
  else
    match mock_mode args with
    | Some t => mock_run (year args) t events
    | None => real_run amb subscribers (entries args) (tags args) (year args) events
    end.

(** *** Vocabulary of the statements *)

Definition returns (s : Subscriber) : bool :=
  match sub_throws s with
  | None => true
  | Some _ => false
  end.

Definition invocations (subscribers : list Subscriber) : list Effect :=
  map (λ s, Invoked (sub_id s)) subscribers.

(** The subscribers invoked, in order. *)
Definition invoked_ids (effects : list Effect) : list nat :=
  omap (λ e, match e with Invoked id => Some id | _ => None end) effects.

Definition is_abort (e : Event) : bool :=
  match e with
  | Abort => true
  | _ => false
  end.

Definition is_close (e : Event) : bool :=
  match e with
  | Close _ => true
  | _ => false
  end.

(** The values passed to [onProgress], in order. *)
Definition progress_reports (effects : list Effect) : list Q :=
  omap (λ e, match e with OnProgress p => Some p | _ => None end) effects.

Definition in_unit_interval (p : Q) : bool := Qle_bool 0 p && Qle_bool p 1.

Fixpoint nondecreasing (ps : list Q) : bool :=
  match ps with
  | [] => true
  | p :: rest =>
      match rest with
      | [] => true
      | q :: _ => Qle_bool p q && nondecreasing rest
      end
  end.

Definition is_returned (out : Outcome) : bool :=
  match out with
  | Returned _ => true
  | _ => false
  end.

(** The progress contract as the specification words it, for one run:
    non-decreasing, within the unit interval, and ending at 1 when the
    run succeeds. *)
Definition progress_contract (run : list Effect * Outcome) : Prop :=
  nondecreasing (progress_reports run.1) = true
  ∧ forallb in_unit_interval (progress_reports run.1) = true
  ∧ (is_returned run.2 = true → last (progress_reports run.1) = Some 1%Q).

(** The reports the renderer makes before it closes, clamped, nothing
    left out. *)
Fixpoint renderer_reports (events : list Event) : list Q :=
  match events with
  | [] => []
  | StderrData data :: rest => (progress_reports (onStderr data) ++ renderer_reports rest)%list
  | Close _ :: _ => []
  | _ :: rest => renderer_reports rest
  end.

(** The notification contract as the specification words it, for one
    run: a run that returns has invoked every registered subscriber. *)
Definition notifies_before_returning (subscribers : list Subscriber)
           (run : list Effect * Outcome) : Prop :=
  is_returned run.2 = true → ∀ s, s ∈ subscribers → Invoked (sub_id s) ∈ run.1.

(** The isolation contract as the specification words it, for one
    dispatch: every registered subscriber is invoked and no error reaches
    the publisher. *)
Definition isolates_failures (subscribers : list Subscriber) : Prop :=
  (∀ s, s ∈ subscribers → Invoked (sub_id s) ∈ (notifySubscribers subscribers).1)
  ∧ (notifySubscribers subscribers).2 = Ok tt.


(** Scene determinism as the specification words it: the overlay
    sequence is a function of the entries, the tags and the year. *)
Definition scene_determined_by_input : Prop :=
  ∀ amb1 amb2 entries tags year,
    overlays amb1 entries tags year = overlays amb2 entries tags year.

(** Counting effects of one kind. *)
Definition is_spawn (e : Effect) : bool :=
  match e with Spawn _ => true | _ => false end.
Definition is_kill (e : Effect) : bool :=
  match e with Kill => true | _ => false end.
Definition is_add_listener (e : Effect) : bool :=
  match e with AddAbortListener => true | _ => false end.
Definition is_remove_listener (e : Effect) : bool :=
  match e with RemoveAbortListener => true | _ => false end.
Definition count (p : Effect → bool) (effects : list Effect) : nat :=
  length (List.filter p effects).

Definition is_pending (out : Outcome) : bool :=
  match out with Pending => true | _ => false end.

(** A time stamp as the renderer prints it: [time=HH:MM:SS.FF]. *)
Definition two_digit (n : nat) : list Ascii.ascii :=
  [Ascii.ascii_of_nat (48 + n / 10); Ascii.ascii_of_nat (48 + n mod 10)].

Definition stamp (h m s f : nat) : list Ascii.ascii :=
  (String.list_ascii_of_string "time=" ++ two_digit h ++ [":"%char] ++ two_digit m
     ++ [":"%char] ++ two_digit s ++ ["."%char] ++ two_digit f)%list.

(** The elapsed time of a report in hundredths of a second. *)
Definition centiseconds (t : nat * nat * nat * nat) : nat :=
  let '(hours, minutes, seconds, fraction) := t in
  ((hours * 3600 + minutes * 60 + seconds) * 100 + fraction)%nat.

(** The counter of the mock loop after [k] passes: [i += step], [k]
    times from 0. *)
Fixpoint mock_counter (mockTime : Q) (k : nat) : Q :=
  match k with
  | O => 0%Q
  | S k' => (mock_counter mockTime k' + mockTime / 10)%Q
  end.

End Video.

(** ** sampling.ts: tag suggestions through the client's model *)

Module Sampling.

(** A suggestion as [responseSchema.parse] returns it.  The union tries
    [existingTagSchema] first and an object schema drops the keys it does
    not name, so a parsed suggestion has an [id] or it has a [name] with an
    optional [description], never both.  The [id] is any number the model
    wrote; one that is no row identifier matches no tag. *)
Inductive SuggestedTag :=
| ById (id : Z)
| ByName (name : string) (description : option string).

(** [t.id === tag.id] and [t.name === tag.name] *)
Definition has_tag_id (id : Z) (t : Tag) : bool := Z.eqb (Z.of_N (tag_id t)) id.
Definition has_tag_name (name : string) (t : Tag) : bool := String.eqb (tag_name t) name.

Definition isExistingTagSuggestion (tag : SuggestedTag)
           (existingTags currentTags : list Tag) : bool :=
  match tag with
  | ById id => existsb (has_tag_id id) existingTags && negb (existsb (has_tag_id id) currentTags)
  | ByName _ _ => false
  end.

Definition isNewTagSuggestion (tag : SuggestedTag) (existingTags : list Tag) : bool :=
  match tag with
  | ByName name _ => forallb (λ t, negb (has_tag_name name t)) existingTags
  | ById _ => false
  end.

(** One pass of the loop that fills [resolvedTags]: a suggested name that
    an existing tag carries becomes a suggestion of that tag's id. *)
Definition resolve (existingTags : list Tag) (tag : SuggestedTag) : SuggestedTag :=
  match tag with
  | ByName name _ =>
      match find (has_tag_name name) existingTags with
      | Some existingTag => ById (Z.of_N (tag_id existingTag))
      | None => tag
      end
  | ById _ => tag
  end.

(** A JavaScript [Set] of numbers: insertion order, no duplicate. *)
Definition Set_add (x : Z) (s : list Z) : list Z :=
  if existsb (Z.eqb x) s then s else (s ++ [x])%list.

Definition Set_from (xs : list Z) : list Z := fold_left (λ s x, Set_add x s) xs [].

(** [t.id] of a suggestion that passed [isExistingTagSuggestion]. *)
Definition suggested_id (tag : SuggestedTag) : option Z :=
  match tag with
  | ById id => Some id
  | ByName _ _ => None
  end.

(** What the sampling code does to the outside, in order.  The payload of
    the final log keeps [addedTags]; the entry it also carries is a fresh
    read of the store. *)
Inductive Effect :=
| ConsoleError (message : string)
| CreateMessage (entry : Entry) (currentTags existingTags : list Tag)
| CreateTag (tag : SuggestedTag)
| LogError (modelResponse error : string)
| AddTagToEntry (entryId : Id) (tagId : Z)
| LogInfo (addedTags : list Tag).

(** How an [async] function ends; [Pending] when the answers given do
    not bring it to an end. *)
Inductive Outcome (A : Type) :=
| Returned (a : A)
| Thrown (msg : string)
| Pending.
Arguments Returned {A} a.
Arguments Thrown {A} msg.
Arguments Pending {A}.

Record Processed := {
  idsToAdd : list Z;
  suggestedNewTags : list SuggestedTag;
  suggestedExistingTags : list SuggestedTag
}.

(** The loop over [suggestedNewTags]: one [createTag] call per tag, each
    answered by the store with the created tag or with an error. *)
Fixpoint create_all (newTags : list SuggestedTag) (answers : list (Result Tag))
         (ids : list Z) : list Effect * Outcome (list Z) :=
  match newTags with
  | [] => ([], Returned ids)
  | tag :: rest =>
      match answers with
      | [] => ([CreateTag tag], Pending)
      | Err e :: _ => ([CreateTag tag], Thrown e)
      | Ok newTag :: answers' =>
          let '(effects, out) :=
            create_all rest answers' (Set_add (Z.of_N (tag_id newTag)) ids) in
          (CreateTag tag :: effects, out)
      end
  end.

(** [parseAndProcessTagSuggestions] from the parsed suggestions on;
    [JSON.parse] and the schema are the caller's input. *)
Definition parseAndProcessTagSuggestions (existingTags currentTags : list Tag)
           (suggestedTags : list SuggestedTag) (answers : list (Result Tag))
  : list Effect * Outcome Processed :=
  let resolvedTags := map (resolve existingTags) suggestedTags in
  let suggestedNewTags :=
    List.filter (λ tag, isNewTagSuggestion tag existingTags) resolvedTags in
  let suggestedExistingTags :=
    List.filter (λ tag, isExistingTagSuggestion tag existingTags currentTags)
                resolvedTags in
  let idsToAdd := Set_from (omap suggested_id suggestedExistingTags) in
  let '(effects, out) := create_all suggestedNewTags answers idsToAdd in
  (effects,
   match out with
   | Returned ids =>
       Returned {| idsToAdd := ids; suggestedNewTags := suggestedNewTags;
                   suggestedExistingTags := suggestedExistingTags |}
   | Thrown e => Thrown e
   | Pending => Pending
   end).

(** What one call of [suggestTagsSampling] gets from its surroundings,
    [await] by [await]: the client's sampling capability, the answers of
    the store to [getEntry], [getTags] and [getEntryTags], the text of the
    model's answer once [resultSchema] accepted it (thrown: the error of
    the request or of the schema), the suggestions parsed from that text
    (or the error of [JSON.parse] or of the schema), the store's answers to
    the [createTag] calls and to the [addTagToEntry] calls, call by call,
    and its answers to the final [listTags] and [getEntry]. *)
Record Inputs := {
  sampling : bool;
  entry : Outcome (option Entry);
  existingTags : Outcome (list Tag);
  currentTags : Outcome (list Tag);
  modelResponse : Outcome string;
  suggestedTags : Result (list SuggestedTag);
  created : list (Result Tag);
  attached : list (Result unit);
  allTags : Outcome (list Tag);
  updatedEntry : Outcome (option Entry)
}.

(** [await answer] followed by the rest of the function: a rejected
    promise is thrown on, an unsettled one leaves the call pending. *)
Definition await {A B : Type} (answer : Outcome A)
           (rest : A → list Effect * Outcome B) : list Effect * Outcome B :=
  match answer with
  | Returned a => rest a
  | Thrown e => ([], Thrown e)
  | Pending => ([], Pending)
  end.

(** What was done so far, then the rest of the function. *)
Definition after {B : Type} (effects : list Effect)
           (rest : list Effect * Outcome B) : list Effect * Outcome B :=
  ((effects ++ rest.1)%list, rest.2).

(** [parseAndProcessTagSuggestions] with its first line, the parse of the
    model's text. *)
Definition parsed_and_processed (suggestedTags : Result (list SuggestedTag))
           (existingTags currentTags : list Tag) (answers : list (Result Tag))
  : list Effect * Outcome Processed :=
  match suggestedTags with
  | Err e => ([], Thrown e)
  | Ok tags => parseAndProcessTagSuggestions existingTags currentTags tags answers
  end.

Definition parse_failure (modelResponse error : string) : list Effect :=
  [ConsoleError "Error parsing tag suggestions"; LogError modelResponse error].

(** The [.catch] on the promise of [parseAndProcessTagSuggestions]: a
    rejection is logged with the model's text and thrown again. *)
Definition catch_parse_failure (modelResponse : string)
           (processed : list Effect * Outcome Processed)
  : list Effect * Outcome Processed :=
  match processed.2 with
  | Thrown e => ((processed.1 ++ parse_failure modelResponse e)%list, Thrown e)
  | _ => processed
  end.

(** The loop [for (const tagId of idsToAdd) await agent.db.addTagToEntry]:
    one call per id, each answered by the store; a rejected call ends the
    loop, the calls before it stay done. *)
Fixpoint attach_all (entryId : Id) (ids : list Z) (answers : list (Result unit))
  : list Effect * Outcome unit :=
  match ids with
  | [] => ([], Returned tt)
  | tagId :: rest =>
      match answers with
      | [] => ([AddTagToEntry entryId tagId], Pending)
      | Err e :: _ => ([AddTagToEntry entryId tagId], Thrown e)
      | Ok _ :: answers' =>
          after [AddTagToEntry entryId tagId] (attach_all entryId rest answers')
      end
  end.

(** [suggestTagsSampling] of the advanced solution.  The entry read back
    at the end goes into the payload of the final log only. *)
Definition suggestTagsSampling (i : Inputs) (entryId : Id)
  : list Effect * Outcome unit :=
  if negb (sampling i)
  then ([ConsoleError "Client does not support sampling, skipping sampling request"],
        Returned tt)
  else
    await (entry i) (λ entry,
    match entry with
    | None => ([], Thrown (Tools.entry_not_found entryId))
    | Some entry =>
    await (existingTags i) (λ existingTags,
    await (currentTags i) (λ currentTags,
    after [CreateMessage entry currentTags existingTags] (
    await (modelResponse i) (λ text,
    let processed :=
      catch_parse_failure text
        (parsed_and_processed (suggestedTags i) existingTags currentTags (created i)) in
    after processed.1 (
    await processed.2 (λ p,
    let attaching := attach_all (entry_id entry) (idsToAdd p) (attached i) in
    after attaching.1 (
    await attaching.2 (λ _,
    await (allTags i) (λ allTags,
    await (updatedEntry i) (λ _,
    let addedTags := omap (λ id, find (has_tag_id id) allTags) (idsToAdd p) in
    ([LogInfo addedTags], Returned tt)))))))))))
    end).

(** The calls the store accepted before it rejected one or stopped
    answering. *)
Fixpoint accepted {A : Type} (answers : list (Result A)) : nat :=
  match answers with
  | Ok _ :: rest => S (accepted rest)
  | _ => O
  end.

(** The call comes to its loop over [idsToAdd], with the entry [e] it
    read and the result [p] of processing the suggestions: the client
    samples, every read and the request were answered, the text parsed and
    every new tag was created. *)
Definition processed_to (i : Inputs) (e : Entry) (p : Processed) : Prop :=
  sampling i = true
  ∧ entry i = Returned (Some e)
  ∧ ∃ existing current text tags,
      existingTags i = Returned existing
      ∧ currentTags i = Returned current
      ∧ modelResponse i = Returned text
      ∧ suggestedTags i = Ok tags
      ∧ (parseAndProcessTagSuggestions existing current tags (created i)).2
        = Returned p.

(** The tags a run asked the store to create and the tags it attached to
    the entry. *)
Definition created_tags (effects : list Effect) : list SuggestedTag :=
  omap (λ e, match e with CreateTag tag => Some tag | _ => None end) effects.

Definition attached_ids (effects : list Effect) : list Z :=
  omap (λ e, match e with AddTagToEntry _ id => Some id | _ => None end) effects.

(** The identifiers the store handed out, answer by answer. *)
Definition answered_ids (answers : list (Result Tag)) : list Z :=
  omap (λ a, match a with Ok t => Some (Z.of_N (tag_id t)) | Err _ => None end) answers.

End Sampling.

(** ** resources.ts, prompts.ts: completion of identifiers *)

Module Completion.

(** [s.includes(v)]: [v] occurs in [s]. *)
Fixpoint includes (s v : string) : bool :=
  String.prefix v s
  || match s with
     | EmptyString => false
     | String _ s' => includes s' v
     end.

(** The [complete] callbacks for tag and entry identifiers:
    [records.map((r) => r.id.toString()).filter((id) => id.includes(value))]. *)
Definition complete_ids (ids : list Id) (value : string) : list string :=
  List.filter (λ id, includes id value) (map pretty ids).

(** The [complete] callback for video names. *)
Definition complete_videos (videos : list string) (value : string) : list string :=
  List.filter (λ video, includes video value) videos.

End Completion.

(** ** Concrete data for the examples *)

Module Samples.

Definition sample_entry : Entry :=
  {| entry_id := 7; entry_title := "Monday"; entry_content := "Rain all day";
     entry_tags := [3%N] |}.
Definition sample_tag : Tag := {| tag_id := 3; tag_name := "weather" |}.
Definition sample_db : Tools.DB :=
  {| Tools.db_entries := {[ 7%N := sample_entry ]};
     Tools.db_tags := {[ 3%N := sample_tag ]} |}.

Definition sample_changes : Subscriptions.Changes :=
  {| Subscriptions.entries := Some [8%N; 7%N]; Subscriptions.tags := Some [3%N] |}.

Definition another_entry : Entry :=
  {| entry_id := 8; entry_title := "Tuesday"; entry_content := "Sun";
     entry_tags := [] |}.

(** A store with one entry, the same store after a second entry was
    created, and the store with one more tag and no entry left. *)
Definition one_entry : Server.Domain :=
  {| Server.entries := [sample_entry]; Server.tags := []; Server.videos := [] |}.
Definition two_entries : Server.Domain :=
  {| Server.entries := [sample_entry; another_entry]; Server.tags := [];
     Server.videos := [] |}.
Definition one_tag : Server.Domain :=
  {| Server.entries := []; Server.tags := [sample_tag]; Server.videos := [] |}.

Definition all_enabled : Server.Flags :=
  {| Server.suggestTagsPrompt := true; Server.tagListResource := true;
     Server.tagsResource := true; Server.entryResource := true;
     Server.videoResource := true |}.

Definition failing_subscriber : Video.Subscriber :=
  {| Video.sub_id := 1; Video.sub_throws := Some "transport closed" |}.
Definition quiet_subscriber : Video.Subscriber :=
  {| Video.sub_id := 2; Video.sub_throws := None |}.

Definition kody : Video.Ambient :=
  {| Video.username := "kody"; Video.today := "November 2, 2026" |}.
Definition kody_next_day : Video.Ambient :=
  {| Video.username := "kody"; Video.today := "November 3, 2026" |}.

Definition real_args : Video.Args :=
  {| Video.entries := [sample_entry; another_entry]; Video.tags := [sample_tag];
     Video.year := 2026; Video.mockTime := None |}.
Definition mock_args : Video.Args :=
  {| Video.entries := [sample_entry; another_entry]; Video.tags := [sample_tag];
     Video.year := 2026; Video.mockTime := Some 1000%Q |}.

(** A mock run that is left alone: ten timers. *)
Definition ten_timers : list Video.Event := repeat Video.TimerFired 10.

(** A renderer that reports thirty seconds, then ten, then exits with
    code 0. *)
Definition backwards_render : list Video.Event :=
  [ Video.MkdirDone (Ok tt);
    Video.StderrData "frame= 720 fps= 24 time=00:00:30.00 bitrate= 12.1kbits/s";
    Video.StderrData "frame= 240 fps= 24 time=00:00:10.00 bitrate= 12.1kbits/s";
    Video.Close (Some 0%Z) ].


(** Tags 3 ("weather") and 4 ("mood") exist, the entry carries tag 3.
    The model suggests tag 4 by id, tag 3 by id, the name "weather", the
    new name "travel" twice and an id that no tag has; the store answers
    the two creations with tags 5 and 6. *)
Definition mood_tag : Tag := {| tag_id := 4; tag_name := "mood" |}.
Definition model_suggestions : list Sampling.SuggestedTag :=
  [ Sampling.ById 4; Sampling.ById 3; Sampling.ByName "weather" None;
    Sampling.ByName "travel" None; Sampling.ByName "travel" (Some "Trips");
    Sampling.ById 99 ].
Definition store_answers : list (Result Tag) :=
  [ Ok {| tag_id := 5; tag_name := "travel" |};
    Ok {| tag_id := 6; tag_name := "travel" |} ].
Definition sampling_inputs : Sampling.Inputs :=
  {| Sampling.sampling := true;
     Sampling.entry := Sampling.Returned (Some sample_entry);
     Sampling.existingTags := Sampling.Returned [sample_tag; mood_tag];
     Sampling.currentTags := Sampling.Returned [sample_tag];
     Sampling.modelResponse := Sampling.Returned "[{...}]";
     Sampling.suggestedTags := Ok model_suggestions;
     Sampling.created := store_answers;
     Sampling.attached := [Ok tt; Ok tt; Ok tt];
     Sampling.allTags := Sampling.Returned [sample_tag; mood_tag];
     Sampling.updatedEntry := Sampling.Returned (Some sample_entry) |}.
(** The same call when the model's text is no JSON. *)
Definition garbled_inputs : Sampling.Inputs :=
  {| Sampling.sampling := true;
     Sampling.entry := Sampling.Returned (Some sample_entry);
     Sampling.existingTags := Sampling.Returned [sample_tag; mood_tag];
     Sampling.currentTags := Sampling.Returned [sample_tag];
     Sampling.modelResponse := Sampling.Returned "Sure! Here are some tags";
     Sampling.suggestedTags := Err "Unexpected token S in JSON at position 0";
     Sampling.created := [];
     Sampling.attached := [];
     Sampling.allTags := Sampling.Returned [sample_tag; mood_tag];
     Sampling.updatedEntry := Sampling.Returned (Some sample_entry) |}.
(** The same call when the store rejects the second [addTagToEntry]. *)
Definition refusing_inputs : Sampling.Inputs :=
  {| Sampling.sampling := true;
     Sampling.entry := Sampling.Returned (Some sample_entry);
     Sampling.existingTags := Sampling.Returned [sample_tag; mood_tag];
     Sampling.currentTags := Sampling.Returned [sample_tag];
     Sampling.modelResponse := Sampling.Returned "[{...}]";
     Sampling.suggestedTags := Ok model_suggestions;
     Sampling.created := store_answers;
     Sampling.attached := [Ok tt; Err "SQLITE_BUSY"];
     Sampling.allTags := Sampling.Returned [sample_tag; mood_tag];
     Sampling.updatedEntry := Sampling.Returned (Some sample_entry) |}.
(** The same call when the second [createTag] is rejected. *)
Definition uncreated_inputs : Sampling.Inputs :=
  {| Sampling.sampling := true;
     Sampling.entry := Sampling.Returned (Some sample_entry);
     Sampling.existingTags := Sampling.Returned [sample_tag; mood_tag];
     Sampling.currentTags := Sampling.Returned [sample_tag];
     Sampling.modelResponse := Sampling.Returned "[{...}]";
     Sampling.suggestedTags := Ok model_suggestions;
     Sampling.created := [Ok {| tag_id := 5; tag_name := "travel" |}; Err "SQLITE_BUSY"];
     Sampling.attached := [];
     Sampling.allTags := Sampling.Returned [sample_tag; mood_tag];
     Sampling.updatedEntry := Sampling.Returned (Some sample_entry) |}.


End Samples.

(** * Properties *)

(** ** The deletion tools *)

Section ToolsFacts.
Import Tools Samples.



End ToolsFacts.

(** ** The subscription registry *)

Section SubscriptionFacts.
Import Subscriptions Samples.








End SubscriptionFacts.

(** ** The dynamic capabilities *)

Section CapabilityFacts.
Import Server Samples.

(** Case analysis on a server whose fields are all booleans but the
    log. *)
Ltac split_server s :=
  let c := fresh "c" in
  let snt := fresh "snt" in
  destruct s as [c [[] [] [] [] []] snt].

Ltac split_counts d :=
  destruct (0 <? length (entries d))%nat,
           (0 <? length (tags d))%nat,
           (0 <? length (videos d))%nat.

Lemma updateResources_flags (d : Domain) (s : McpServer) :
  flags (updateResources d s)
  = {| suggestTagsPrompt := suggestTagsPrompt (flags s);
       tagListResource := predicate TagListResource d;
       tagsResource := predicate TagsResource d;
       entryResource := predicate EntryResource d;
       videoResource := predicate VideoResource d |}.
Proof.
  unfold updateResources, predicate. split_counts d; split_server s;
    destruct c; reflexivity.
Qed.

Lemma updatePrompts_flags (d : Domain) (s : McpServer) :
  flags (updatePrompts d s)
  = set_enabled SuggestTagsPrompt (predicate SuggestTagsPrompt d) (flags s).
Proof.
  unfold updatePrompts, predicate. destruct (0 <? length (entries d))%nat;
    split_server s; destruct c; reflexivity.
Qed.

Lemma send_flags (n : ListChanged) (s : McpServer) : flags (send n s) = flags s.
Proof. unfold send. now destruct (connected s). Qed.

(** The database subscribers of the running system. *)
Lemma main_db_subscribers (flags0 : Flags) (d : Domain) :
  db_subscribers (main flags0 d) = registered_db_subscribers.
Proof. reflexivity. Qed.

Lemma step_db_subscribers (w : World) (e : Event) :
  db_subscribers (agent (step w e)) = db_subscribers (agent w).
Proof. now destruct e. Qed.

Lemma run_db_subscribers (events : list Event) :
  ∀ w, db_subscribers (agent (run w events)) = db_subscribers (agent w).
Proof.
  unfold run. induction events as [|e rest IH]; intros w; cbn; [reflexivity |].
  rewrite IH. apply step_db_subscribers.
Qed.

(** One database tick leaves every flag equal to its predicate. *)
Lemma db_tick_flags (d : Domain) (s : McpServer) (c : Capability) :
  enabled c (flags (db_tick d s)) = predicate c d.
Proof.
  unfold db_tick, publish. cbn.
  rewrite updatePrompts_flags, updateResources_flags.
  now destruct c.
Qed.

Lemma step_db_mutation (flags0 : Flags) (d0 : Domain) (events : list Event)
      (m : Domain → Domain) :
  server (agent (step (run (boot flags0 d0) events) (DbMutation m)))
  = db_tick (m (domain (run (boot flags0 d0) events)))
            (server (agent (run (boot flags0 d0) events))).
Proof.
  cbn. rewrite run_db_subscribers. reflexivity.
Qed.

(** C1. Start the server on any data, with any flags for the fresh
    registrations, and let any sequence of store mutations and video
    directory changes happen.  Once the database subscribers have handled
    one more store mutation, the [suggest_tags] prompt is enabled iff
    there is an entry, the tag list and tag resources iff there is a tag,
    the entry resource iff there is an entry, the video resource iff
    there is a video file, all counted on the data after the mutation. *)
Theorem flags_follow_data (flags0 : Flags) (d0 : Domain) (events : list Event)
        (m : Domain → Domain) :
  let before := run (boot flags0 d0) events in
  let after := step before (DbMutation m) in
  let f := flags (server (agent after)) in
  domain after = m (domain before)
  ∧ suggestTagsPrompt f = (0 <? length (entries (domain after)))%nat
  ∧ tagListResource f = (0 <? length (tags (domain after)))%nat
  ∧ tagsResource f = (0 <? length (tags (domain after)))%nat
  ∧ entryResource f = (0 <? length (entries (domain after)))%nat
  ∧ videoResource f = (0 <? length (videos (domain after)))%nat.
Proof.
  intros before after f. subst f after before.
  rewrite (step_db_mutation flags0 d0 events m).
  split; [reflexivity |].
  repeat split.
  - apply (db_tick_flags _ _ SuggestTagsPrompt).
  - apply (db_tick_flags _ _ TagListResource).
  - apply (db_tick_flags _ _ TagsResource).
  - apply (db_tick_flags _ _ EntryResource).
  - apply (db_tick_flags _ _ VideoResource).
Qed.

(** C3. On any initial data and whatever flags the registrations start
    with, the recompute that [init] runs leaves every flag equal to its
    predicate and puts no list-changed notification on the transport:
    [main] connects the transport only after [init], and [enable()] and
    [disable()] notify connected clients only. *)
Theorem startup_sends_nothing (flags0 : Flags) (d : Domain) :
  sent (server (init d (new_agent flags0))) = []
  ∧ sent (server (main flags0 d)) = []
  ∧ ∀ c, enabled c (flags (server (main flags0 d))) = predicate c d.
Proof.
  unfold main, init, initializePrompts, initializeResources. cbn.
  unfold updatePrompts, updateResources, predicate.
  destruct flags0 as [[] [] [] [] []]; split_counts d;
    (split; [reflexivity | split; [reflexivity | intros []; reflexivity]]).
Qed.

Lemma run_connected (events : list Event) :
  ∀ w, connected (server (agent w)) = true →
       (∀ h, h ∈ (db_subscribers (agent w) ++ video_subscribers (agent w))%list →
             ∀ d s, connected (h d s) = connected s) →
       connected (server (agent (run w events))) = true.
Proof.
  unfold run. induction events as [|e rest IH]; intros w Hc Hh; [assumption |].
  cbn. apply IH.
  - assert (Hpub : ∀ hs d s, (∀ h, h ∈ hs → ∀ d s, connected (h d s) = connected s) →
                             connected (publish hs d s) = connected s).
    { unfold publish. induction hs as [|h hs IHhs]; intros d s Hhs; [reflexivity |].
      cbn. rewrite IHhs.
      - apply Hhs. apply elem_of_cons. now left.
      - intros h' Hin. apply Hhs. apply elem_of_cons. now right. }
    destruct e; cbn; rewrite Hpub; try assumption;
      intros h Hin; apply Hh; apply elem_of_app; [left | right]; assumption.
  - intros h Hin. apply Hh. destruct e; exact Hin.
Qed.

Lemma send_connected (n : ListChanged) (s : McpServer) :
  connected (send n s) = connected s.
Proof. unfold send. destruct (connected s) eqn:Hc; [reflexivity | now rewrite Hc]. Qed.

Lemma updateResources_connected (d : Domain) (s : McpServer) :
  connected (updateResources d s) = connected s.
Proof.
  unfold updateResources. split_counts d; split_server s; destruct c; reflexivity.
Qed.

Lemma updatePrompts_connected (d : Domain) (s : McpServer) :
  connected (updatePrompts d s) = connected s.
Proof.
  unfold updatePrompts. destruct (0 <? length (entries d))%nat;
    split_server s; destruct c; reflexivity.
Qed.

(** The running system stays connected. *)
Lemma boot_run_connected (flags0 : Flags) (d0 : Domain) (events : list Event) :
  connected (server (agent (run (boot flags0 d0) events))) = true.
Proof.
  apply run_connected; [reflexivity |].
  intros h Hin d s. cbn in Hin.
  repeat (apply elem_of_cons in Hin as [-> | Hin]);
    [apply send_connected | apply updateResources_connected
     | apply updatePrompts_connected | apply send_connected | inversion Hin].
Qed.

(** What one database tick sends on a connected server: the
    unconditional resource notification of [initializeResources], then
    one notification for each capability whose flag flipped. *)
Lemma db_tick_sent (d : Domain) (s : McpServer) :
  connected s = true →
  sent (db_tick d s)
  = (sent s ++ ResourceListChanged
       :: map list_changed_of (flipped (flags s) (flags (db_tick d s))))%list.
Proof.
  intros Hc. unfold db_tick, publish. cbn.
  unfold updatePrompts, updateResources.
  split_counts d; split_server s; cbn in Hc; subst c; cbn;
    rewrite <- ?app_assoc; reflexivity.
Qed.

(** C2, as the code has it.  On every database tick of the running
    server one resource list-changed notification is sent whether or not
    a flag flipped, followed by one list-changed notification for each
    capability whose flag did flip, in the order in which the tick visits
    them (a resource notification for a resource, a prompt notification
    for the prompt); a capability whose flag is unchanged adds none. *)
Theorem tick_notifications (flags0 : Flags) (d0 : Domain) (events : list Event)
        (m : Domain → Domain) :
  let before := server (agent (run (boot flags0 d0) events)) in
  let after := server (agent (step (run (boot flags0 d0) events) (DbMutation m))) in
  sent after
  = (sent before ++ ResourceListChanged
       :: map list_changed_of (flipped (flags before) (flags after)))%list.
Proof.
  intros before after. subst before after.
  rewrite step_db_mutation. apply db_tick_sent. apply boot_run_connected.
Qed.

(** C2 fails as stated: the server runs on a store with one entry, a
    second entry is created; no flag flips, and a resource list-changed
    notification goes out all the same. *)
Lemma tick_without_flip_notifies :
  ¬ batched_iff_flipped two_entries (server (main all_enabled one_entry)).
Proof.
  intros (emitted & Hsent & Hiff & _).
  vm_compute in Hsent. subst emitted.
  apply (proj1 Hiff); [discriminate | reflexivity].
Qed.

End CapabilityFacts.

(** ** The video subscribers *)

Section VideoSubscriberFacts.
Import Video Samples.

(** Subscribers that all return are all invoked, in registration
    order. *)
Lemma notifySubscribers_all_return (subscribers : list Subscriber) :
  forallb returns subscribers = true →
  notifySubscribers subscribers = (invocations subscribers, Ok tt).
Proof.
  induction subscribers as [|s rest IH]; cbn; [reflexivity |].
  unfold returns at 1. destruct (sub_throws s); [discriminate |].
  cbn. intros Hrest. now rewrite IH.
Qed.

(** The dispatch ends at the first subscriber that throws. *)
Lemma notifySubscribers_first_throw (pre post : list Subscriber) (s : Subscriber)
      (e : string) :
  forallb returns pre = true → sub_throws s = Some e →
  notifySubscribers (pre ++ s :: post) = (invocations (pre ++ [s]), Err e).
Proof.
  intros Hpre Hs. induction pre as [|x pre IH]; cbn.
  - now rewrite Hs.
  - cbn in Hpre. apply andb_true_iff in Hpre as [Hx Hpre].
    unfold returns in Hx. destruct (sub_throws x); [discriminate |].
    now rewrite (IH Hpre).
Qed.

(** A dispatch that ends well has invoked everybody. *)
Lemma notifySubscribers_ok (subscribers : list Subscriber) :
  (notifySubscribers subscribers).2 = Ok tt →
  (notifySubscribers subscribers).1 = invocations subscribers.
Proof.
  induction subscribers as [|s rest IH]; cbn; [reflexivity |].
  destruct (sub_throws s); [discriminate |].
  destruct (notifySubscribers rest) as [effects r]. cbn in *.
  intros Hr. now rewrite (IH Hr).
Qed.

End VideoSubscriberFacts.

(** ** The run of [createWrappedVideo] *)

Section VideoRunFacts.
Import Video Samples.

Lemma onStderr_reports (data : string) :
  onStderr data = map OnProgress (progress_reports (onStderr data)).
Proof.
  unfold onStderr. now destruct (match_time (String.list_ascii_of_string data)).
Qed.

Lemma onStderr_invoked (data : string) : invoked_ids (onStderr data) = [].
Proof.
  unfold onStderr. now destruct (match_time (String.list_ascii_of_string data)).
Qed.

Lemma invoked_ids_app (l1 l2 : list Effect) :
  invoked_ids (l1 ++ l2) = (invoked_ids l1 ++ invoked_ids l2)%list.
Proof. apply omap_app. Qed.

Lemma invoked_ids_invocations (subscribers : list Subscriber) :
  invoked_ids (invocations subscribers) = map sub_id subscribers.
Proof.
  induction subscribers as [|s rest IH]; cbn; [reflexivity |]. now rewrite <- IH.
Qed.

(** Events that neither close the renderer nor abort the signal for the
    first time only add progress reports. *)
Lemma ffmpeg_running_prefix (year : Z) (subscribers : list Subscriber)
      (aborted killed : bool) (pre rest : list Event) :
  forallb (λ e, negb (is_close e) && (aborted || negb (is_abort e))) pre = true →
  ffmpeg_running year subscribers aborted killed (pre ++ rest)
  = ((map OnProgress (renderer_reports pre)
      ++ (ffmpeg_running year subscribers aborted killed rest).1)%list,
     (ffmpeg_running year subscribers aborted killed rest).2).
Proof.
  induction pre as [|e pre IH]; cbn.
  - intros _. now destruct (ffmpeg_running year subscribers aborted killed rest).
  - intros H. apply andb_true_iff in H as [He Hpre]. specialize (IH Hpre).
    destruct e as [| | r | data | code]; cbn in He.
    + destruct aborted; [exact IH | discriminate].
    + exact IH.
    + exact IH.
    + rewrite IH. cbn. rewrite map_app, <- app_assoc, <- onStderr_reports.
      reflexivity.
    + discriminate.
Qed.

(** A run of the renderer that returns has invoked every subscriber, in
    registration order, and nobody else. *)
Lemma ffmpeg_running_returned (year : Z) (subscribers : list Subscriber)
      (events : list Event) :
  ∀ aborted killed,
    is_returned (ffmpeg_running year subscribers aborted killed events).2 = true →
    invoked_ids (ffmpeg_running year subscribers aborted killed events).1
    = map sub_id subscribers
    ∧ (ffmpeg_running year subscribers aborted killed events).2
      = Returned (videoUri year).
Proof.
  induction events as [|e rest IH]; intros aborted killed; cbn; [discriminate |].
  destruct e as [| | r | data | code].
  - destruct aborted; [apply IH |]. destruct killed; [apply IH |].
    specialize (IH true true).
    destruct (ffmpeg_running year subscribers true true rest). exact IH.
  - apply IH.
  - apply IH.
  - specialize (IH aborted killed).
    destruct (ffmpeg_running year subscribers aborted killed rest). cbn in *.
    intros H. rewrite invoked_ids_app, onStderr_invoked. now apply IH.
  - destruct aborted; [discriminate |].
    destruct code as [[| |] |]; try discriminate.
    destruct (notifySubscribers subscribers) as [effects r] eqn:Hn. cbn.
    destruct r as [[] | msg]; [| discriminate].
    intros _. split; [| reflexivity].
    rewrite <- invoked_ids_invocations.
    rewrite <- (notifySubscribers_ok subscribers); now rewrite Hn.
Qed.

Lemma awaiting_mkdir_returned (year : Z) (subscribers : list Subscriber)
      (scene : list (string * string * nat * Q * Q)) (events : list Event) :
  ∀ aborted,
    is_returned (awaiting_mkdir year subscribers scene aborted events).2 = true →
    invoked_ids (awaiting_mkdir year subscribers scene aborted events).1
    = map sub_id subscribers
    ∧ (awaiting_mkdir year subscribers scene aborted events).2
      = Returned (videoUri year).
Proof.
  induction events as [|e rest IH]; intros aborted; cbn; [discriminate |].
  destruct e as [| | r | data | code]; try apply IH.
  destruct r as [[] | msg]; [| discriminate].
  pose proof (ffmpeg_running_returned year subscribers rest aborted false) as H.
  destruct (ffmpeg_running year subscribers aborted false rest). exact H.
Qed.

(** The mock loop invokes nobody. *)
Lemma mock_iteration_invoked (year : Z) (mockTime i : Q) (aborted : bool)
      (rest : list Effect * Outcome) :
  invoked_ids rest.1 = [] →
  invoked_ids (mock_iteration year mockTime i aborted rest).1 = [].
Proof.
  intros H. unfold mock_iteration.
  destruct (Qlt_bool i mockTime); [| reflexivity].
  destruct aborted; [reflexivity |].
  destruct (Qle_bool 1 (i / mockTime)); [reflexivity | exact H].
Qed.

Lemma mock_sleep_invoked (year : Z) (mockTime step : Q) (events : list Event) :
  ∀ i aborted, invoked_ids (mock_sleep year mockTime step i aborted events).1 = [].
Proof.
  induction events as [|e rest IH]; intros i aborted; cbn; [reflexivity |].
  destruct e; try apply IH. apply mock_iteration_invoked, IH.
Qed.

(** C8, as the code has it.  A run of the real renderer that returns
    the video URI has invoked every registered video subscriber, in
    registration order, before it returns; a run in mock mode invokes
    none, whether it returns or not. *)
Theorem real_run_notifies_mock_run_does_not
        (amb : Ambient) (subscribers : list Subscriber) (args : Args)
        (aborted : bool) (events : list Event) :
  let r := createWrappedVideo amb subscribers args aborted events in
  (mock_mode args = None → is_returned r.2 = true →
     invoked_ids r.1 = map sub_id subscribers ∧ r.2 = Returned (videoUri (year args)))
  ∧ (∀ t, mock_mode args = Some t → invoked_ids r.1 = []).
Proof.
  unfold createWrappedVideo. destruct aborted; cbn.
  - split; [discriminate | reflexivity].
  - split.
    + intros ->. unfold real_run.
      pose proof (awaiting_mkdir_returned (year args) subscribers
                    (scene_of (overlays amb (entries args) (tags args) (year args)))
                    events false) as H.
      destruct (awaiting_mkdir _ _ _ _ _). exact H.
    + intros t ->. unfold mock_run.
      apply mock_iteration_invoked, mock_sleep_invoked.
Qed.

(** A rendering that succeeds with one subscriber registered invokes it;
    the mock run with the same subscriber invokes nobody. *)
Lemma real_run_notifies_mock_run_does_not_witness :
  invoked_ids (createWrappedVideo kody [quiet_subscriber] real_args false
                                  backwards_render).1 = [2%nat]
  ∧ invoked_ids (createWrappedVideo kody [quiet_subscriber] mock_args false
                                    ten_timers).1 = [].
Proof.
  split.
  - apply (proj1 (real_run_notifies_mock_run_does_not
                    kody [quiet_subscriber] real_args false backwards_render));
      reflexivity.
  - apply (proj2 (real_run_notifies_mock_run_does_not
                    kody [quiet_subscriber] mock_args false ten_timers) 1000%Q).
    reflexivity.
Defined.

(** C8 fails as stated: the mock run returns the video URI and the
    registered subscriber was never invoked. *)
Lemma mock_run_returns_without_notifying :
  ¬ notifies_before_returning
      [quiet_subscriber]
      (createWrappedVideo kody [quiet_subscriber] mock_args false ten_timers).
Proof.
  intros H. specialize (H eq_refl quiet_subscriber (list_elem_of_here _ _)).
  apply list_elem_of_In in H. vm_compute in H.
  repeat (destruct H as [H | H]; [discriminate H |]). exact H.
Qed.

Lemma renderer_reports_chunks (chunks : list string) (rest : list Event) :
  forallb (λ e, negb (is_close e) && (false || negb (is_abort e)))
          (map StderrData chunks) = true.
Proof. induction chunks as [|c chunks IH]; [reflexivity | exact IH]. Qed.

(** C9, as the code has it.  [notifySubscribers] has no handler for a
    failing subscriber.  When every subscriber returns, all of them are
    invoked in registration order.  Otherwise the subscribers are invoked
    in registration order up to and including the first one that throws,
    none of those registered after it is invoked, and the dispatch ends
    with that error; a rendering that has succeeded then ends with that
    error instead of the video URI. *)
Theorem throwing_subscriber_stops_dispatch :
  (∀ subscribers,
      forallb returns subscribers = true →
      notifySubscribers subscribers = (invocations subscribers, Ok tt))
  ∧ (∀ pre post s e,
       forallb returns pre = true → sub_throws s = Some e →
       notifySubscribers (pre ++ s :: post) = (invocations (pre ++ [s]), Err e)
       ∧ ∀ amb args chunks rest,
           mock_mode args = None →
           (createWrappedVideo amb (pre ++ s :: post) args false
              (MkdirDone (Ok tt) :: map StderrData chunks ++ Close (Some 0%Z) :: rest)).2
           = Thrown e).
Proof.
  split; [exact notifySubscribers_all_return |].
  intros pre post s e Hpre Hs. split; [now apply notifySubscribers_first_throw |].
  intros amb args chunks rest Hmode.
  unfold createWrappedVideo. rewrite Hmode. unfold real_run. cbn.
  rewrite ffmpeg_running_prefix by apply (renderer_reports_chunks chunks rest).
  cbn. rewrite (notifySubscribers_first_throw pre post s e Hpre Hs). reflexivity.
Qed.

(** The quiet subscriber alone is invoked and the dispatch ends well.
    With the failing subscriber registered before it, the quiet one is not
    invoked, the dispatch fails and so does the rendering. *)
Lemma throwing_subscriber_stops_dispatch_witness :
  notifySubscribers [quiet_subscriber] = ([Invoked 2], Ok tt)
  ∧ notifySubscribers [failing_subscriber; quiet_subscriber]
    = ([Invoked 1], Err "transport closed")
  ∧ (createWrappedVideo kody [failing_subscriber; quiet_subscriber] real_args false
       (MkdirDone (Ok tt) :: map StderrData [] ++ Close (Some 0%Z) :: [])).2
    = Thrown "transport closed".
Proof.
  pose proof throwing_subscriber_stops_dispatch as [Hquiet Hthrow].
  destruct (Hthrow [] [quiet_subscriber] failing_subscriber "transport closed"
                   eq_refl eq_refl) as [Hdispatch Hrun].
  split; [apply (Hquiet [quiet_subscriber]); reflexivity |].
  split; [exact Hdispatch |].
  apply (Hrun kody real_args [] []). reflexivity.
Defined.

(** C9 fails as stated: with a subscriber that throws registered before
    one that does not, the dispatch ends with the error. *)
Lemma dispatch_does_not_isolate_failures :
  ¬ isolates_failures [failing_subscriber; quiet_subscriber].
Proof.
  intros [Hall Hok]. discriminate Hok.
Qed.

(** An abort that arrives while [fs.mkdir] is pending finds no listener
    registered: the renderer is started afterwards and is not killed, and
    the call ends with the cancellation error only once the renderer
    closes by itself. *)
Remark abort_before_spawn_is_not_a_kill
       (year : Z) (subscribers : list Subscriber)
       (scene : list (string * string * nat * Q * Q)) (code : option Z) :
  awaiting_mkdir year subscribers scene false
                 [Abort; MkdirDone (Ok tt); Close code]
  = ([Spawn scene; AddAbortListener; RemoveAbortListener], Thrown (cancelled year)).
Proof. reflexivity. Qed.

End VideoRunFacts.

(** ** Progress reports *)

Section ProgressFacts.
Import Video Samples.

Lemma Qnat_nonneg (n : nat) : (0 <= Qnat n)%Q.
Proof. unfold Qnat, Qle. cbn. lia. Qed.

Lemma Qlt_bool_true (x y : Q) : Qlt_bool x y = true → (x < y)%Q.
Proof. unfold Qlt_bool. rewrite Qlt_alt. now destruct (x ?= y)%Q. Qed.

Lemma Qle_bool_false (x y : Q) : Qle_bool x y = false → (y < x)%Q.
Proof.
  intros H. apply Qnot_le_lt. intros Hle. apply Qle_bool_iff in Hle. congruence.
Qed.

Lemma Qdiv_le_mono (a b c : Q) : (0 < c)%Q → (a <= b)%Q → (a / c <= b / c)%Q.
Proof.
  intros Hc Hab. apply Qle_shift_div_l; [assumption |].
  unfold Qdiv. rewrite <- Qmult_assoc, (Qmult_comm (/ c)), Qmult_inv_r, Qmult_1_r;
    [assumption |].
  intros H0. rewrite H0 in Hc. lra.
Qed.

Lemma Qdiv_le_1 (a c : Q) : (0 < c)%Q → (a < c)%Q → (a / c <= 1)%Q.
Proof. intros Hc Hac. apply Qle_shift_div_r; [assumption |]. lra. Qed.

Lemma Qdiv_nonneg (a c : Q) : (0 < c)%Q → (0 <= a)%Q → (0 <= a / c)%Q.
Proof. intros Hc Ha. apply Qle_shift_div_l; [assumption |]. lra. Qed.

(** A report of the renderer is clamped into the unit interval. *)
Lemma progress_of_time_unit (t : nat * nat * nat * nat) :
  in_unit_interval (progress_of_time t) = true.
Proof.
  destruct t as [[[h m] s] f]. unfold in_unit_interval, progress_of_time.
  apply andb_true_iff. split; apply Qle_bool_iff.
  - apply Q.min_glb; [| discriminate].
    pose proof (Qnat_nonneg h). pose proof (Qnat_nonneg m).
    pose proof (Qnat_nonneg s).
    assert (0 <= Qnat f / 100)%Q
      by (apply Qdiv_nonneg; [reflexivity | apply Qnat_nonneg]).
    apply Qdiv_nonneg; [reflexivity |]. lra.
  - apply Q.le_min_r.
Qed.

Lemma progress_reports_app (l1 l2 : list Effect) :
  progress_reports (l1 ++ l2) = (progress_reports l1 ++ progress_reports l2)%list.
Proof. apply omap_app. Qed.

Lemma onStderr_unit (data : string) :
  forallb in_unit_interval (progress_reports (onStderr data)) = true.
Proof.
  unfold onStderr. destruct (match_time (String.list_ascii_of_string data)); cbn;
    [| reflexivity].
  now rewrite progress_of_time_unit.
Qed.

Lemma renderer_reports_unit (events : list Event) :
  forallb in_unit_interval (renderer_reports events) = true.
Proof.
  induction events as [|e rest IH]; cbn; [reflexivity |].
  destruct e; try assumption; [| reflexivity].
  rewrite forallb_app, onStderr_unit. exact IH.
Qed.

Lemma notifySubscribers_reports (subscribers : list Subscriber) :
  progress_reports (notifySubscribers subscribers).1 = [].
Proof.
  induction subscribers as [|s rest IH]; cbn; [reflexivity |].
  destruct (sub_throws s); [reflexivity |].
  destruct (notifySubscribers rest). exact IH.
Qed.

(** The renderer's reports are forwarded as they come, none left out;
    the close handler adds the final 1 when the exit code is 0 and the
    signal is not aborted. *)
Lemma ffmpeg_running_reports (year : Z) (subscribers : list Subscriber)
      (events : list Event) :
  ∀ aborted killed,
  ∃ final,
    progress_reports (ffmpeg_running year subscribers aborted killed events).1
    = (renderer_reports events ++ final)%list
    ∧ (final = [] ∨ final = [1%Q])
    ∧ (is_returned (ffmpeg_running year subscribers aborted killed events).2 = true →
       final = [1%Q]).
Proof.
  induction events as [|e rest IH]; intros aborted killed; cbn.
  - exists []. repeat split; [now left | discriminate].
  - destruct e as [| | r | data | code].
    + destruct aborted; [apply IH |]. destruct killed; [apply IH |].
      specialize (IH true true).
      destruct (ffmpeg_running year subscribers true true rest). exact IH.
    + apply IH.
    + apply IH.
    + specialize (IH aborted killed).
      destruct (ffmpeg_running year subscribers aborted killed rest) as [effects out].
      destruct IH as (final & Heq & Hfinal & Hret). exists final.
      cbn [fst snd] in *.
      rewrite progress_reports_app, Heq, app_assoc. auto.
    + destruct aborted.
      { exists []. repeat split; [now left | discriminate]. }
      destruct code as [[| |] |];
        try (exists []; repeat split; [now left | discriminate]).
      pose proof (notifySubscribers_reports subscribers) as Hn.
      destruct (notifySubscribers subscribers) as [effects r].
      cbn [fst snd] in *.
      exists [1%Q]. change (progress_reports (OnProgress 1 :: RemoveAbortListener :: effects))
        with (1%Q :: progress_reports effects).
      rewrite Hn. repeat split. now right.
Qed.

Lemma awaiting_mkdir_reports (year : Z) (subscribers : list Subscriber)
      (scene : list (string * string * nat * Q * Q)) (events : list Event) :
  ∀ aborted,
  ∃ reports final,
    progress_reports (awaiting_mkdir year subscribers scene aborted events).1
    = (reports ++ final)%list
    ∧ forallb in_unit_interval reports = true
    ∧ (final = [] ∨ final = [1%Q])
    ∧ (is_returned (awaiting_mkdir year subscribers scene aborted events).2 = true →
       final = [1%Q]).
Proof.
  induction events as [|e rest IH]; intros aborted; cbn.
  - exists [], []. repeat split; [now left | discriminate].
  - destruct e as [| | r | data | code]; try apply IH.
    destruct r as [[] | msg].
    + destruct (ffmpeg_running_reports year subscribers rest aborted false)
        as (final & Heq & Hfinal & Hret).
      destruct (ffmpeg_running year subscribers aborted false rest).
      cbn [fst snd] in *.
      exists (renderer_reports rest), final.
      repeat split; auto using renderer_reports_unit.
    + exists [], []. repeat split; [now left | discriminate].
Qed.

Lemma nondecreasing_cons (p : Q) (ps : list Q) :
  (∀ q, q ∈ ps → (p <= q)%Q) → nondecreasing ps = true →
  nondecreasing (p :: ps) = true.
Proof.
  destruct ps as [|q rest]; [reflexivity |]. intros Hle Hrest.
  change (Qle_bool p q && nondecreasing (q :: rest) = true).
  rewrite Hrest, andb_true_r. apply Qle_bool_iff, Hle, list_elem_of_here.
Qed.

(** The mock loop, suspended in the sleep of a pass whose counter [i]
    passed the loop test: what it reports from there on is
    non-decreasing, lies between [i / mockTime] and 1, and ends with 1
    when the run returns. *)
Lemma mock_sleep_progress (year : Z) (mockTime step : Q) (events : list Event) :
  (0 < mockTime)%Q → (0 < step)%Q →
  ∀ i aborted, (0 <= i)%Q → (i < mockTime)%Q →
    nondecreasing (progress_reports (mock_sleep year mockTime step i aborted events).1)
    = true
    ∧ (∀ p, p ∈ progress_reports (mock_sleep year mockTime step i aborted events).1 →
            (i / mockTime <= p)%Q ∧ (p <= 1)%Q)
    ∧ (is_returned (mock_sleep year mockTime step i aborted events).2 = true →
       last (progress_reports (mock_sleep year mockTime step i aborted events).1)
       = Some 1%Q).
Proof.
  intros Hmock Hstep.
  assert (Hdone : ∀ i, (i < mockTime)%Q →
            nondecreasing [1%Q] = true
            ∧ (∀ p, p ∈ [1%Q] → (i / mockTime <= p)%Q ∧ (p <= 1)%Q)
            ∧ (true = true → last [1%Q] = Some 1%Q)).
  { intros i Hi. split; [reflexivity | split; [| reflexivity]].
    intros p Hp. apply list_elem_of_singleton in Hp. subst p.
    split; [now apply Qdiv_le_1 | discriminate]. }
  induction events as [|e rest IH]; intros i aborted Hi Hlt; cbn.
  - split; [reflexivity | split; [| discriminate]]. intros p Hp. inversion Hp.
  - destruct e as [| | r | data | code]; try (apply IH; assumption).
    unfold mock_iteration.
    destruct (Qlt_bool (i + step) mockTime) eqn:Hguard; [| now apply Hdone].
    destruct aborted.
    { split; [reflexivity | split; [| discriminate]]. intros p Hp. inversion Hp. }
    destruct (Qle_bool 1 ((i + step) / mockTime)) eqn:Hge; [now apply Hdone |].
    apply Qlt_bool_true in Hguard. apply Qle_bool_false in Hge.
    assert (Hi' : (0 <= i + step)%Q) by lra.
    destruct (IH (i + step)%Q false Hi' Hguard) as (Hsorted & Hbounds & Hlast).
    cbn [fst snd].
    change (progress_reports
              (OnProgress ((i + step) / mockTime)
                 :: (mock_sleep year mockTime step (i + step) false rest).1))
      with (((i + step) / mockTime)%Q
              :: progress_reports
                   (mock_sleep year mockTime step (i + step) false rest).1).
    assert (Hmono : (i / mockTime <= (i + step) / mockTime)%Q)
      by (apply Qdiv_le_mono; [assumption | lra]).
    split; [| split].
    + apply nondecreasing_cons; [| assumption]. intros q Hq. now apply Hbounds.
    + intros p Hp. apply elem_of_cons in Hp as [-> | Hp].
      * split; [assumption | lra].
      * destruct (Hbounds p Hp) as [Hlow Hhigh]. split; [lra | assumption].
    + intros Hret. rewrite last_cons, (Hlast Hret). reflexivity.
Qed.

Lemma mock_run_progress (year : Z) (mockTime : Q) (events : list Event) :
  (0 < mockTime)%Q →
  nondecreasing (progress_reports (mock_run year mockTime events).1) = true
  ∧ forallb in_unit_interval (progress_reports (mock_run year mockTime events).1) = true
  ∧ (is_returned (mock_run year mockTime events).2 = true →
     last (progress_reports (mock_run year mockTime events).1) = Some 1%Q).
Proof.
  intros Hmock. unfold mock_run, mock_iteration.
  destruct (Qlt_bool 0 mockTime); [| repeat split].
  destruct (Qle_bool 1 (0 / mockTime)) eqn:Hge; [repeat split |].
  assert (Hstep : (0 < mockTime / 10)%Q)
    by (apply Qlt_shift_div_l; [reflexivity | lra]).
  destruct (mock_sleep_progress year mockTime (mockTime / 10) events Hmock Hstep
              0%Q false (Qle_refl 0) Hmock) as (Hsorted & Hbounds & Hlast).
  cbn [fst snd].
  change (progress_reports
            (OnProgress (0 / mockTime)
               :: (mock_sleep year mockTime (mockTime / 10) 0 false events).1))
    with ((0 / mockTime)%Q
            :: progress_reports
                 (mock_sleep year mockTime (mockTime / 10) 0 false events).1).
  assert (Hzero : (0 <= 0 / mockTime)%Q) by (apply Qdiv_nonneg; [assumption | lra]).
  apply Qle_bool_false in Hge.
  split; [| split].
  - apply nondecreasing_cons; [| assumption]. intros q Hq. now apply Hbounds.
  - apply forallb_forall. intros p Hp. apply list_elem_of_In in Hp.
    unfold in_unit_interval. apply andb_true_iff.
    apply elem_of_cons in Hp as [-> | Hp].
    + split; apply Qle_bool_iff; [assumption | lra].
    + destruct (Hbounds p Hp) as [Hlow Hhigh].
      split; apply Qle_bool_iff; [lra | assumption].
  - intros Hret. rewrite last_cons, (Hlast Hret). reflexivity.
Qed.

Lemma mock_mode_positive (args : Args) (t : Q) :
  mock_mode args = Some t → (0 < t)%Q.
Proof.
  unfold mock_mode. destruct (mockTime args) as [q |]; [| discriminate].
  destruct (Qlt_bool 0 q) eqn:Hq; [| discriminate].
  intros [= <-]. now apply Qlt_bool_true.
Qed.

(** C6, as the code has it.  Every value passed to [onProgress] lies in
    the unit interval, and a run that returns ends its reports with 1, in
    both modes.  The mock loop reports a non-decreasing sequence.  A
    rendering forwards each report of the renderer as it comes, clamped
    but never discarded, so its reports are as ordered as the
    renderer's are, followed by the final 1 of a clean exit. *)
Theorem progress_reports_contract
        (amb : Ambient) (subscribers : list Subscriber) (args : Args)
        (aborted : bool) (events : list Event) :
  let r := createWrappedVideo amb subscribers args aborted events in
  forallb in_unit_interval (progress_reports r.1) = true
  ∧ (is_returned r.2 = true → last (progress_reports r.1) = Some 1%Q)
  ∧ (∀ t, mock_mode args = Some t → nondecreasing (progress_reports r.1) = true)
  ∧ (mock_mode args = None → aborted = false →
     ∀ rest, events = MkdirDone (Ok tt) :: rest →
       ∃ final, progress_reports r.1 = (renderer_reports rest ++ final)%list
                ∧ (final = [] ∨ final = [1%Q])).
Proof.
  unfold createWrappedVideo. destruct aborted; cbn zeta.
  { repeat split; discriminate. }
  destruct (mock_mode args) as [t |] eqn:Hmode.
  - destruct (mock_run_progress (year args) t events (mock_mode_positive args t Hmode))
      as (Hsorted & Hunit & Hlast).
    split; [assumption | split; [assumption | split]];
      [intros; assumption | discriminate].
  - unfold real_run.
    set (scene := scene_of (overlays amb (entries args) (tags args) (year args))).
    destruct (awaiting_mkdir_reports (year args) subscribers scene events false)
      as (reports & final & Heq & Hunit & Hfinal & Hret).
    split; [| split; [| split]].
    + destruct (awaiting_mkdir _ _ _ _ _) as [effects out]. cbn [fst snd] in *.
      change (progress_reports (Mkdir :: effects)) with (progress_reports effects).
      rewrite Heq, forallb_app, Hunit.
      destruct Hfinal as [-> | ->]; reflexivity.
    + destruct (awaiting_mkdir _ _ _ _ _) as [effects out]. cbn [fst snd] in *.
      change (progress_reports (Mkdir :: effects)) with (progress_reports effects).
      intros Hout. rewrite Heq, (Hret Hout). apply last_snoc.
    + discriminate.
    + intros _ _ rest ->. cbn [awaiting_mkdir].
      destruct (ffmpeg_running_reports (year args) subscribers rest false false)
        as (final' & Heq' & Hfinal' & _).
      destruct (ffmpeg_running _ _ _ _ _) as [effects out]. cbn [fst snd] in *.
      exists final'. split; [exact Heq' | exact Hfinal'].
Qed.

(** The mock run reports ten increasing fractions and then 1; the
    rendering whose renderer reports thirty seconds and then ten
    forwards both. *)
Lemma progress_reports_contract_witness :
  nondecreasing (progress_reports
                   (createWrappedVideo kody [] mock_args false ten_timers).1) = true
  ∧ last (progress_reports
            (createWrappedVideo kody [] real_args false backwards_render).1)
    = Some 1%Q
  ∧ ∃ final,
      progress_reports (createWrappedVideo kody [] real_args false backwards_render).1
      = (renderer_reports (tail backwards_render) ++ final)%list
      ∧ (final = [] ∨ final = [1%Q]).
Proof.
  split; [| split].
  - apply (proj1 (proj2 (proj2 (progress_reports_contract
                                  kody [] mock_args false ten_timers))) 1000%Q).
    reflexivity.
  - apply (proj1 (proj2 (progress_reports_contract
                           kody [] real_args false backwards_render))).
    reflexivity.
  - apply (proj2 (proj2 (proj2 (progress_reports_contract
                                  kody [] real_args false backwards_render)))
             eq_refl eq_refl (tail backwards_render)).
    reflexivity.
Defined.

(** C6 fails as stated: the renderer reports thirty seconds and then
    ten, and [onProgress] receives 1/2 and then 1/6. *)
Lemma later_lower_report_is_forwarded :
  ¬ progress_contract (createWrappedVideo kody [] real_args false backwards_render).
Proof.
  intros [Hsorted _]. vm_compute in Hsorted. discriminate Hsorted.
Qed.

End ProgressFacts.

(** ** Scene construction *)

Section SceneFacts.
Import Video Samples.

(** The first [reduce]: with [e] the longest so far, first among equals,
    folding over more entries keeps that property. *)
Lemma longest_fold (l : list Entry) :
  ∀ p1 e p2,
    Forall (λ x, (content_length x < content_length e)%nat) p1 →
    Forall (λ x, (content_length x ≤ content_length e)%nat) p2 →
    ∃ q1 e' q2,
      fold_left (λ longest entry,
                   if (length_or_0 longest <? content_length entry)%nat
                   then Some entry else longest) l (Some e) = Some e'
      ∧ (p1 ++ e :: p2 ++ l = q1 ++ e' :: q2)%list
      ∧ Forall (λ x, (content_length x < content_length e')%nat) q1
      ∧ Forall (λ x, (content_length x ≤ content_length e')%nat) q2.
Proof.
  induction l as [|x l IH]; intros p1 e p2 H1 H2; cbn [fold_left].
  - exists p1, e, p2. rewrite app_nil_r. auto.
  - cbn [length_or_0]. destruct (content_length e <? content_length x)%nat eqn:Hlt.
    + apply Nat.ltb_lt in Hlt.
      destruct (IH (p1 ++ e :: p2)%list x []) as (q1 & e' & q2 & Hf & Heq & Hq1 & Hq2).
      * apply Forall_app. split; [| apply Forall_cons; split; [assumption |]].
        -- eapply Forall_impl; [exact H1 |]. cbn. intros y Hy. lia.
        -- eapply Forall_impl; [exact H2 |]. cbn. intros y Hy. lia.
      * constructor.
      * exists q1, e', q2. repeat split; try assumption.
        rewrite <- Heq. cbn. now rewrite <- app_assoc.
    + apply Nat.ltb_ge in Hlt.
      destruct (IH p1 e (p2 ++ [x])%list) as (q1 & e' & q2 & Hf & Heq & Hq1 & Hq2).
      * assumption.
      * apply Forall_app. split; [assumption |]. now apply Forall_singleton.
      * exists q1, e', q2. repeat split; try assumption.
        rewrite <- Heq. now rewrite <- app_assoc.
Qed.

(** The second [reduce], the same with the order reversed. *)
Lemma shortest_fold (l : list Entry) :
  ∀ p1 e p2,
    Forall (λ x, (content_length e < content_length x)%nat) p1 →
    Forall (λ x, (content_length e ≤ content_length x)%nat) p2 →
    ∃ q1 e' q2,
      fold_left (λ shortest entry,
                   if (content_length entry <? length_or_0 shortest)%nat
                   then Some entry else shortest) l (Some e) = Some e'
      ∧ (p1 ++ e :: p2 ++ l = q1 ++ e' :: q2)%list
      ∧ Forall (λ x, (content_length e' < content_length x)%nat) q1
      ∧ Forall (λ x, (content_length e' ≤ content_length x)%nat) q2.
Proof.
  induction l as [|x l IH]; intros p1 e p2 H1 H2; cbn [fold_left].
  - exists p1, e, p2. rewrite app_nil_r. auto.
  - cbn [length_or_0]. destruct (content_length x <? content_length e)%nat eqn:Hlt.
    + apply Nat.ltb_lt in Hlt.
      destruct (IH (p1 ++ e :: p2)%list x []) as (q1 & e' & q2 & Hf & Heq & Hq1 & Hq2).
      * apply Forall_app. split; [| apply Forall_cons; split; [assumption |]].
        -- eapply Forall_impl; [exact H1 |]. cbn. intros y Hy. lia.
        -- eapply Forall_impl; [exact H2 |]. cbn. intros y Hy. lia.
      * constructor.
      * exists q1, e', q2. repeat split; try assumption.
        rewrite <- Heq. cbn. now rewrite <- app_assoc.
    + apply Nat.ltb_ge in Hlt.
      destruct (IH p1 e (p2 ++ [x])%list) as (q1 & e' & q2 & Hf & Heq & Hq1 & Hq2).
      * assumption.
      * apply Forall_app. split; [assumption |]. now apply Forall_singleton.
      * exists q1, e', q2. repeat split; try assumption.
        rewrite <- Heq. now rewrite <- app_assoc.
Qed.

(** What an overlay keeps when its text is set aside. *)
Lemma overlays_frame (amb1 amb2 : Ambient) (entries : list Entry) (tags : list Tag)
      (year : Z) :
  drop 2 (overlays amb1 entries tags year) = drop 2 (overlays amb2 entries tags year)
  ∧ map (λ o, (color (spec o), fontsize (spec o), startTime o, endTime o))
        (overlays amb1 entries tags year)
    = map (λ o, (color (spec o), fontsize (spec o), startTime o, endTime o))
          (overlays amb2 entries tags year).
Proof.
  unfold overlays, texts.
  destruct (longestEntry entries), (shortestEntry entries),
    (length entries <? 1)%nat, (0 <? length tags)%nat; split; reflexivity.
Qed.

(** C7, as the code has it.  The longest and the shortest entry are a
    function of the entries alone: none for no entries, and otherwise
    the first entry in input order among those of maximal (minimal)
    content length.  The overlay sequence is a function of the entries,
    the tags and the year together with the user name and the date of
    the machine: its first two texts greet the user and give the date,
    and everything else, the remaining overlays and the colour, font
    size and timing of all of them, is the same whatever the user name
    and the date are. *)
Theorem scene_selection_and_overlays :
  (longestEntry [] = None ∧ shortestEntry [] = None)
  ∧ (∀ entries,
       entries ≠ [] →
       ∃ l1 e l2,
         entries = (l1 ++ e :: l2)%list ∧ longestEntry entries = Some e
         ∧ Forall (λ x, (content_length x < content_length e)%nat) l1
         ∧ Forall (λ x, (content_length x ≤ content_length e)%nat) l2)
  ∧ (∀ entries,
       entries ≠ [] →
       ∃ l1 e l2,
         entries = (l1 ++ e :: l2)%list ∧ shortestEntry entries = Some e
         ∧ Forall (λ x, (content_length e < content_length x)%nat) l1
         ∧ Forall (λ x, (content_length e ≤ content_length x)%nat) l2)
  ∧ (∀ amb entries tags year,
       map (λ o, text (spec o)) (take 2 (overlays amb entries tags year))
       = ["Hello " +:+ username amb +:+ "!"; "It is " +:+ today amb])
  ∧ (∀ amb1 amb2 entries tags year,
       drop 2 (overlays amb1 entries tags year)
       = drop 2 (overlays amb2 entries tags year)
       ∧ map (λ o, (color (spec o), fontsize (spec o), startTime o, endTime o))
             (overlays amb1 entries tags year)
         = map (λ o, (color (spec o), fontsize (spec o), startTime o, endTime o))
               (overlays amb2 entries tags year)).
Proof.
  split; [split; reflexivity |]. split; [| split; [| split]].
  - intros [|a l] Hne; [congruence |].
    unfold longestEntry. cbn [head fold_left length_or_0].
    rewrite Nat.ltb_irrefl.
    destruct (longest_fold l [] a []) as (q1 & e & q2 & Hf & Heq & Hq1 & Hq2);
      [constructor | constructor |].
    exists q1, e, q2. cbn in Heq. auto.
  - intros [|a l] Hne; [congruence |].
    unfold shortestEntry. cbn [head fold_left length_or_0].
    rewrite Nat.ltb_irrefl.
    destruct (shortest_fold l [] a []) as (q1 & e & q2 & Hf & Heq & Hq1 & Hq2);
      [constructor | constructor |].
    exists q1, e, q2. cbn in Heq. auto.
  - intros amb entries tags year. unfold overlays, texts.
    destruct (longestEntry entries), (shortestEntry entries),
      (length entries <? 1)%nat, (0 <? length tags)%nat; reflexivity.
  - apply overlays_frame.
Qed.

(** On the two sample entries, of twelve and of three characters, the
    first is the longest and the second the shortest. *)
Lemma scene_selection_and_overlays_witness :
  (∃ l1 e l2,
      [sample_entry; another_entry] = (l1 ++ e :: l2)%list
      ∧ longestEntry [sample_entry; another_entry] = Some e
      ∧ Forall (λ x, (content_length x < content_length e)%nat) l1
      ∧ Forall (λ x, (content_length x ≤ content_length e)%nat) l2)
  ∧ (∃ l1 e l2,
        [sample_entry; another_entry] = (l1 ++ e :: l2)%list
        ∧ shortestEntry [sample_entry; another_entry] = Some e
        ∧ Forall (λ x, (content_length e < content_length x)%nat) l1
        ∧ Forall (λ x, (content_length e ≤ content_length x)%nat) l2).
Proof.
  split.
  - apply (proj1 (proj2 scene_selection_and_overlays)). discriminate.
  - apply (proj1 (proj2 (proj2 scene_selection_and_overlays))). discriminate.
Defined.

(** C7 fails as stated: the same entries, tags and year give another
    overlay sequence on the next day. *)
Lemma scene_changes_with_the_date : ¬ scene_determined_by_input.
Proof.
  intros H. specialize (H kody kody_next_day [] [] 2026%Z).
  apply (f_equal (λ os, map (λ o, text (spec o)) (take 2 os))) in H.
  vm_compute in H. discriminate H.
Qed.

End SceneFacts.

(** ** Tag suggestions *)

Section SamplingFacts.
Import Sampling.

Lemma Set_add_elem (x y : Z) (s : list Z) : y ∈ Set_add x s ↔ y = x ∨ y ∈ s.
Proof.
  unfold Set_add. destruct (existsb (Z.eqb x) s) eqn:Hx.
  - split; [now right |]. intros [-> | Hy]; [| assumption].
    apply existsb_exists in Hx as (z & Hz & Heq). apply Z.eqb_eq in Heq. subst z.
    now apply list_elem_of_In.
  - rewrite elem_of_app, list_elem_of_singleton. tauto.
Qed.

Lemma Set_add_NoDup (x : Z) (s : list Z) : NoDup s → NoDup (Set_add x s).
Proof.
  intros Hs. unfold Set_add. destruct (existsb (Z.eqb x) s) eqn:Hx; [assumption |].
  apply NoDup_app. split; [assumption |]. split; [| apply NoDup_singleton].
  intros y Hy Hy'. apply list_elem_of_singleton in Hy'. subst y.
  assert (existsb (Z.eqb x) s = true); [| congruence].
  apply existsb_exists. exists x. split; [now apply list_elem_of_In | apply Z.eqb_refl].
Qed.

Lemma Set_fold_spec (xs : list Z) :
  ∀ s, NoDup s →
       NoDup (fold_left (λ s x, Set_add x s) xs s)
       ∧ ∀ y, y ∈ fold_left (λ s x, Set_add x s) xs s ↔ y ∈ s ∨ y ∈ xs.
Proof.
  induction xs as [|x xs IH]; intros s Hs; cbn.
  - split; [assumption |]. intros y. rewrite elem_of_nil. tauto.
  - destruct (IH (Set_add x s) (Set_add_NoDup x s Hs)) as [Hnd Hel].
    split; [assumption |]. intros y. rewrite Hel, Set_add_elem, elem_of_cons. tauto.
Qed.

(** A name is new exactly when no existing tag is found for it. *)
Lemma find_name_none (existingTags : list Tag) (name : string) :
  find (has_tag_name name) existingTags = None
  ↔ forallb (λ t, negb (has_tag_name name t)) existingTags = true.
Proof.
  induction existingTags as [|t rest IH]; cbn; [tauto |].
  destruct (has_tag_name name t); cbn; [split; discriminate | exact IH].
Qed.

(** Resolving names does not change which suggestions count as new. *)
Lemma resolve_keeps_new (existingTags : list Tag) (tag : SuggestedTag) :
  isNewTagSuggestion (resolve existingTags tag) existingTags
  = isNewTagSuggestion tag existingTags.
Proof.
  destruct tag as [id | name d]; [reflexivity |]. cbn.
  destruct (find (has_tag_name name) existingTags) as [t |] eqn:Hfind; cbn.
  - symmetry. apply not_true_is_false. intros Hall.
    apply find_name_none in Hall. congruence.
  - reflexivity.
Qed.

(** A suggestion that counts as new is left alone by the resolution. *)
Lemma resolve_new (existingTags : list Tag) (tag : SuggestedTag) :
  isNewTagSuggestion tag existingTags = true → resolve existingTags tag = tag.
Proof.
  destruct tag as [id | name d]; [reflexivity |]. cbn. intros Hall.
  apply find_name_none in Hall. now rewrite Hall.
Qed.

Lemma filter_resolve_new (existingTags : list Tag) (tags : list SuggestedTag) :
  List.filter (λ tag, isNewTagSuggestion tag existingTags) (map (resolve existingTags) tags)
  = List.filter (λ tag, isNewTagSuggestion tag existingTags) tags.
Proof.
  induction tags as [|tag rest IH]; cbn [List.filter map]; [reflexivity |].
  rewrite resolve_keeps_new.
  destruct (isNewTagSuggestion tag existingTags) eqn:Hnew; [| exact IH].
  now rewrite (resolve_new existingTags tag Hnew), IH.
Qed.

(** The creation loop: what it asks the store to create is a prefix of
    the new tags, all of them when it returns; the identifiers it returns
    are those it started from and those the store handed out. *)
Lemma create_all_spec (newTags : list SuggestedTag) :
  ∀ answers ids,
    NoDup ids →
    created_tags (create_all newTags answers ids).1 `prefix_of` newTags
    ∧ ∀ ids',
        (create_all newTags answers ids).2 = Returned ids' →
        created_tags (create_all newTags answers ids).1 = newTags
        ∧ NoDup ids'
        ∧ ∀ y, y ∈ ids' ↔ y ∈ ids ∨ y ∈ answered_ids (take (length newTags) answers).
Proof.
  induction newTags as [|tag rest IH]; intros answers ids Hids; cbn.
  - split; [apply prefix_nil |]. intros ids' [= <-].
    split; [reflexivity | split; [assumption |]].
    intros y. rewrite elem_of_nil. tauto.
  - destruct answers as [|[newTag | e] answers']; cbn.
    + split; [| discriminate]. apply prefix_cons, prefix_nil.
    + destruct (IH answers' (Set_add (Z.of_N (tag_id newTag)) ids)
                   (Set_add_NoDup _ _ Hids)) as [Hprefix Hret].
      destruct (create_all rest answers' (Set_add (Z.of_N (tag_id newTag)) ids))
        as [effects out]. cbn in *.
      split; [now apply prefix_cons |].
      intros ids' Hout. destruct (Hret ids' Hout) as (Hcreated & Hnd & Hel).
      split; [now rewrite Hcreated | split; [assumption |]].
      intros y. rewrite Hel, Set_add_elem, elem_of_cons. tauto.
    + split; [| discriminate]. apply prefix_cons, prefix_nil.
Qed.

Lemma Set_from_spec (xs : list Z) :
  NoDup (Set_from xs) ∧ ∀ y, y ∈ Set_from xs ↔ y ∈ xs.
Proof.
  destruct (Set_fold_spec xs [] (NoDup_nil_2)) as [Hnd Hel].
  split; [exact Hnd |]. intros y. unfold Set_from. rewrite Hel, elem_of_nil. tauto.
Qed.

(** The identifiers of the suggestions that pass
    [isExistingTagSuggestion]. *)
Lemma existing_ids_elem (existingTags currentTags : list Tag)
      (resolved : list SuggestedTag) (id : Z) :
  id ∈ omap suggested_id
         (List.filter (λ tag, isExistingTagSuggestion tag existingTags currentTags)
                      resolved)
  ↔ ById id ∈ resolved
    ∧ existsb (has_tag_id id) existingTags = true
    ∧ existsb (has_tag_id id) currentTags = false.
Proof.
  rewrite list_elem_of_omap. split.
  - intros (tag & Hin & Hid). apply list_elem_of_In, filter_In in Hin as [Hin Hex].
    destruct tag as [id' | name d]; [| discriminate]. cbn in Hid. injection Hid as ->.
    cbn in Hex. apply andb_true_iff in Hex as [He Hc]. apply negb_true_iff in Hc.
    split; [now apply list_elem_of_In | auto].
  - intros (Hin & He & Hc). exists (ById id). split; [| reflexivity].
    apply list_elem_of_In, filter_In. split; [now apply list_elem_of_In |].
    cbn. now rewrite He, Hc.
Qed.

(** X1.  [parseAndProcessTagSuggestions] asks the store to create
    exactly the suggested names that no existing tag carries, in the order
    of the suggestions and as often as they are suggested: what it has
    created at any point is a prefix of that list, all of it when the call
    returns, and never a name that exists. *)
Theorem suggestions_create_only_unknown_names
        (existingTags currentTags : list Tag) (suggestedTags : list SuggestedTag)
        (answers : list (Result Tag)) :
  let run := parseAndProcessTagSuggestions existingTags currentTags suggestedTags answers in
  let fresh := List.filter (λ tag, isNewTagSuggestion tag existingTags) suggestedTags in
  created_tags run.1 `prefix_of` fresh
  ∧ (∀ p, run.2 = Returned p → created_tags run.1 = fresh ∧ suggestedNewTags p = fresh)
  ∧ (∀ name d t,
       ByName name d ∈ created_tags run.1 → t ∈ existingTags → tag_name t ≠ name).
Proof.
  intros run fresh. subst run. unfold parseAndProcessTagSuggestions.
  rewrite filter_resolve_new. fold fresh.
  set (ids := Set_from _).
  destruct (create_all_spec fresh answers ids (proj1 (Set_from_spec _)))
    as [Hprefix Hret].
  destruct (create_all fresh answers ids) as [effects out]. cbn [fst snd] in *.
  split; [assumption | split].
  - intros p Hp. destruct out as [ids' | e |]; try discriminate.
    injection Hp as <-. cbn. split; [| reflexivity]. now apply (Hret ids').
  - intros name d t Hin Ht Hname.
    destruct Hprefix as [k Hk].
    assert (Hfresh : ByName name d ∈ fresh)
      by (rewrite Hk; apply elem_of_app; now left).
    apply list_elem_of_In, filter_In in Hfresh as [_ Hnew]. cbn in Hnew.
    rewrite forallb_forall in Hnew. apply list_elem_of_In in Ht.
    specialize (Hnew t Ht). unfold has_tag_name in Hnew.
    apply negb_true_iff, String.eqb_neq in Hnew. contradiction.
Qed.

(** On the sample suggestions the two "travel" suggestions are created,
    one after the other, and "weather", which exists, is not. *)
Lemma suggestions_create_only_unknown_names_witness :
  created_tags (parseAndProcessTagSuggestions
                  [Samples.sample_tag; Samples.mood_tag] [Samples.sample_tag]
                  Samples.model_suggestions Samples.store_answers).1
  = [ByName "travel" None; ByName "travel" (Some "Trips")].
Proof.
  destruct (suggestions_create_only_unknown_names
              [Samples.sample_tag; Samples.mood_tag] [Samples.sample_tag]
              Samples.model_suggestions Samples.store_answers) as (_ & Hret & _).
  apply (Hret {| idsToAdd := [4%Z; 5%Z; 6%Z];
                 suggestedNewTags := [ByName "travel" None; ByName "travel" (Some "Trips")];
                 suggestedExistingTags := [ById 4] |}).
  reflexivity.
Defined.

(** X2.  When [parseAndProcessTagSuggestions] returns, [idsToAdd] holds
    no identifier twice, and it holds exactly the identifiers of the
    resolved suggestions that name an existing tag not yet on the entry,
    together with the identifiers the store gave to the tags it created. *)
Theorem suggestions_ids_to_add
        (existingTags currentTags : list Tag) (suggestedTags : list SuggestedTag)
        (answers : list (Result Tag)) (p : Processed) :
  (parseAndProcessTagSuggestions existingTags currentTags suggestedTags answers).2
  = Returned p →
  NoDup (idsToAdd p)
  ∧ ∀ id,
      id ∈ idsToAdd p
      ↔ (ById id ∈ map (resolve existingTags) suggestedTags
         ∧ existsb (has_tag_id id) existingTags = true
         ∧ existsb (has_tag_id id) currentTags = false)
        ∨ id ∈ answered_ids (take (length (suggestedNewTags p)) answers).
Proof.
  unfold parseAndProcessTagSuggestions.
  set (resolved := map (resolve existingTags) suggestedTags).
  set (new := List.filter _ resolved).
  set (ids := Set_from _).
  destruct (Set_from_spec
              (omap suggested_id
                    (List.filter
                       (λ tag, isExistingTagSuggestion tag existingTags currentTags)
                       resolved))) as [Hnd Hel].
  destruct (create_all_spec new answers ids Hnd) as [_ Hret].
  destruct (create_all new answers ids) as [effects out]. cbn [fst snd] in *.
  intros Hp. destruct out as [ids' | e |]; try discriminate.
  injection Hp as <-. cbn.
  destruct (Hret ids' eq_refl) as (_ & Hnd' & Hel').
  split; [assumption |]. intros id.
  rewrite Hel'. subst ids. rewrite Hel, existing_ids_elem. reflexivity.
Qed.

Lemma suggestions_ids_to_add_witness :
  NoDup [4%Z; 5%Z; 6%Z]
  ∧ ∀ id,
      id ∈ [4%Z; 5%Z; 6%Z]
      ↔ (ById id ∈ map (resolve [Samples.sample_tag; Samples.mood_tag])
                       Samples.model_suggestions
         ∧ existsb (has_tag_id id) [Samples.sample_tag; Samples.mood_tag] = true
         ∧ existsb (has_tag_id id) [Samples.sample_tag] = false)
        ∨ id ∈ answered_ids (take 2 Samples.store_answers).
Proof.
  apply (suggestions_ids_to_add
           [Samples.sample_tag; Samples.mood_tag] [Samples.sample_tag]
           Samples.model_suggestions Samples.store_answers
           {| idsToAdd := [4%Z; 5%Z; 6%Z];
              suggestedNewTags := [ByName "travel" None; ByName "travel" (Some "Trips")];
              suggestedExistingTags := [ById 4] |}).
  reflexivity.
Defined.

Lemma create_all_attaches_nothing (newTags : list SuggestedTag) :
  ∀ answers ids, attached_ids (create_all newTags answers ids).1 = [].
Proof.
  induction newTags as [|tag rest IH]; intros answers ids; cbn; [reflexivity |].
  destruct answers as [|[newTag | e] answers']; cbn; try reflexivity.
  specialize (IH answers' (Set_add (Z.of_N (tag_id newTag)) ids)).
  destruct (create_all rest answers' (Set_add (Z.of_N (tag_id newTag)) ids)).
  exact IH.
Qed.

Lemma process_attaches_nothing (existingTags currentTags : list Tag)
      (suggestedTags : list SuggestedTag) (answers : list (Result Tag)) :
  attached_ids
    (parseAndProcessTagSuggestions existingTags currentTags suggestedTags answers).1
  = [].
Proof.
  unfold parseAndProcessTagSuggestions.
  set (new := List.filter _ _). set (ids := Set_from _).
  pose proof (create_all_attaches_nothing new answers ids) as H.
  destruct (create_all new answers ids). exact H.
Qed.

Lemma process_ids_NoDup (existingTags currentTags : list Tag)
      (suggestedTags : list SuggestedTag) (answers : list (Result Tag)) (p : Processed) :
  (parseAndProcessTagSuggestions existingTags currentTags suggestedTags answers).2
  = Returned p →
  NoDup (idsToAdd p).
Proof.
  unfold parseAndProcessTagSuggestions.
  set (new := List.filter _ _). set (ids := Set_from _).
  destruct (create_all_spec new answers ids (proj1 (Set_from_spec _))) as [_ Hret].
  destruct (create_all new answers ids) as [effects out]. cbn [fst snd] in *.
  intros Hp. destruct out as [ids' | e |]; try discriminate.
  injection Hp as <-. cbn. now apply (Hret ids').
Qed.

Lemma attached_ids_app (l1 l2 : list Effect) :
  attached_ids (l1 ++ l2) = (attached_ids l1 ++ attached_ids l2)%list.
Proof. apply omap_app. Qed.

Lemma attached_ids_map (entryId : Id) (ids : list Z) :
  attached_ids (map (AddTagToEntry entryId) ids) = ids.
Proof. induction ids as [|x ids IH]; cbn; [reflexivity | f_equal; exact IH]. Qed.

(** The loop over [idsToAdd]: one call after the other, as far as the
    store accepts them and one call further. *)
Lemma attach_all_spec (entryId : Id) (ids : list Z) :
  ∀ answers,
    attach_all entryId ids answers
    = (map (AddTagToEntry entryId) (take (S (accepted answers)) ids),
       if (length ids <=? accepted answers)%nat then Returned tt
       else match answers !! accepted answers with
            | Some (Err e) => Thrown e
            | _ => Pending
            end).
Proof.
  induction ids as [|id rest IH]; intros answers; [reflexivity |].
  destruct answers as [|[[] | e] answers']; cbn [attach_all accepted]; try reflexivity.
  rewrite IH. unfold after. cbn [fst snd app]. reflexivity.
Qed.

(** The same for the loop over the new tags. *)
Lemma create_all_accepted (newTags : list SuggestedTag) :
  ∀ answers ids,
    (create_all newTags answers ids).1
    = map CreateTag (take (S (accepted answers)) newTags)
    ∧ ∀ err, (create_all newTags answers ids).2 = Thrown err
             ↔ ((accepted answers < length newTags)%nat
                ∧ answers !! accepted answers = Some (Err err)).
Proof.
  induction newTags as [|tag rest IH]; intros answers ids.
  - split; [reflexivity |]. intros err. cbn. split; [discriminate | lia].
  - destruct answers as [|[newTag | e] answers']; cbn [create_all accepted].
    + split; [reflexivity |]. intros err. cbn. split; [discriminate |].
      intros [_ H]. discriminate.
    + destruct (IH answers' (Set_add (Z.of_N (tag_id newTag)) ids)) as [Heff Hout].
      destruct (create_all rest answers' (Set_add (Z.of_N (tag_id newTag)) ids))
        as [effects out]. cbn [fst snd] in *.
      split; [cbn; now rewrite Heff |].
      intros err. rewrite Hout. cbn. split; intros [H1 H2]; (split; [lia | exact H2]).
    + split; [reflexivity |]. intros err. cbn. split.
      * intros [= ->]. split; [lia | reflexivity].
      * now intros [_ [= ->]].
Qed.

(** The end of the call, after the loop over [idsToAdd]. *)
Lemma final_reads (i : Inputs) (p : Processed) (out : Outcome unit) :
  let r := await out (λ _, await (allTags i) (λ allTags, await (updatedEntry i) (λ _,
             ([LogInfo (omap (λ id, find (has_tag_id id) allTags) (idsToAdd p))],
              Returned tt)))) in
  attached_ids r.1 = []
  ∧ (∀ eid id, AddTagToEntry eid id ∉ r.1)
  ∧ (∀ msg err, LogError msg err ∉ r.1)
  ∧ (r.2 = Returned tt → out = Returned tt)
  ∧ (∀ err, out = Thrown err → r = ([], Thrown err))
  ∧ (out = Pending → r = ([], Pending)).
Proof.
  cbn zeta.
  assert (Hnil : ∀ x : Effect, x ∉ @nil Effect) by (intros x H; inversion H).
  destruct out as [[] | err |]; cbn.
  2,3: repeat split; intros; first [apply Hnil | discriminate | congruence].
  destruct (allTags i) as [tags | err |]; cbn.
  2,3: repeat split; intros; first [apply Hnil | discriminate | congruence].
  destruct (updatedEntry i) as [entry | err |]; cbn.
  2,3: repeat split; intros; first [apply Hnil | discriminate | congruence].
  repeat split; try discriminate.
  - intros eid id H. apply list_elem_of_singleton in H. discriminate.
  - intros msg err H. apply list_elem_of_singleton in H. discriminate.
Qed.

(** The shape of a call that comes to its loop over [idsToAdd]. *)
Lemma suggestTagsSampling_processed (i : Inputs) (entryId : Id) (e : Entry)
      (existing current : list Tag) (text : string) (tags : list SuggestedTag)
      (p : Processed) :
  sampling i = true → entry i = Returned (Some e) →
  existingTags i = Returned existing → currentTags i = Returned current →
  modelResponse i = Returned text → suggestedTags i = Ok tags →
  (parseAndProcessTagSuggestions existing current tags (created i)).2 = Returned p →
  suggestTagsSampling i entryId
  = after (CreateMessage e current existing
             :: (parseAndProcessTagSuggestions existing current tags (created i)).1)
      (after (attach_all (entry_id e) (idsToAdd p) (attached i)).1
         (await (attach_all (entry_id e) (idsToAdd p) (attached i)).2 (λ _,
          await (allTags i) (λ allTags,
          await (updatedEntry i) (λ _,
            ([LogInfo (omap (λ id, find (has_tag_id id) allTags) (idsToAdd p))],
             Returned tt)))))).
Proof.
  intros Hs He Hx Hc Hm Ht Hp. unfold suggestTagsSampling.
  rewrite Hs, He, Hx, Hc, Hm, Ht. cbn [negb await].
  unfold parsed_and_processed, catch_parse_failure.
  destruct (parseAndProcessTagSuggestions existing current tags (created i))
    as [effects out].
  cbn [fst snd] in Hp. subst out. reflexivity.
Qed.

(** A call that does not come to its loop attaches nothing and does not
    return, unless the client does not sample. *)
Lemma unprocessed_attaches_nothing (i : Inputs) (entryId : Id) :
  (∃ e p, processed_to i e p)
  ∨ (attached_ids (suggestTagsSampling i entryId).1 = []
     ∧ (sampling i = true → (suggestTagsSampling i entryId).2 ≠ Returned tt)).
Proof.
  unfold processed_to, suggestTagsSampling.
  destruct (sampling i); cbn [negb]; [| right; split; [reflexivity | discriminate]].
  destruct (entry i) as [[e |] | err |]; cbn [await];
    try (right; split; [reflexivity | discriminate]).
  destruct (existingTags i) as [existing | err |]; cbn [await];
    try (right; split; [reflexivity | discriminate]).
  destruct (currentTags i) as [current | err |]; cbn [await];
    try (right; split; [reflexivity | discriminate]).
  destruct (modelResponse i) as [text | err |]; cbn [await];
    try (right; split; [reflexivity | discriminate]).
  unfold parsed_and_processed, catch_parse_failure.
  destruct (suggestedTags i) as [tags | err];
    [| right; split; [reflexivity | discriminate]].
  pose proof (process_attaches_nothing existing current tags (created i)) as Hnone.
  destruct (parseAndProcessTagSuggestions existing current tags (created i))
    as [effects out] eqn:Hrun.
  cbn [fst snd] in *. destruct out as [p | err |]; cbn [fst snd await after].
  - left. exists e, p. split; [reflexivity | split; [reflexivity |]].
    exists existing, current, text, tags. rewrite Hrun. now repeat split.
  - right. split; [| discriminate]. unfold after. cbn [fst snd await app].
    change (attached_ids (CreateMessage e current existing :: ?l))
      with (attached_ids l).
    now rewrite !attached_ids_app, Hnone.
  - right. split; [| discriminate]. unfold after. cbn [fst snd await app].
    change (attached_ids (CreateMessage e current existing :: ?l))
      with (attached_ids l).
    now rewrite !attached_ids_app, Hnone.
Qed.

Lemma take_all_of (A : Type) (l : list A) (n : nat) :
  (length l ≤ n)%nat → take (S n) l = l.
Proof. intros H. apply take_ge. lia. Qed.

(** X3.  [suggestTagsSampling] passes tags to [addTagToEntry] only once
    the suggestions are parsed and every new tag is created, and then one
    by one in the order of [idsToAdd], each call after the store accepted
    the one before: what it has passed is [idsToAdd] cut after the first
    call the store did not accept, so a prefix of it without duplicate,
    always for the entry that was read.  When the call returns, the store
    has accepted a call for each id of [idsToAdd]; when the store rejects
    one, the call throws that error and the tags before stay attached. *)
Theorem sampling_attaches_in_order (i : Inputs) (entryId : Id) :
  let run := suggestTagsSampling i entryId in
  NoDup (attached_ids run.1)
  ∧ (attached_ids run.1 ≠ [] ∨ (sampling i = true ∧ run.2 = Returned tt) →
     ∃ e p, processed_to i e p)
  ∧ (∀ e p, processed_to i e p →
        attached_ids run.1 = take (S (accepted (attached i))) (idsToAdd p)
        ∧ (∀ eid id, AddTagToEntry eid id ∈ run.1 → eid = entry_id e)
        ∧ (run.2 = Returned tt →
           attached_ids run.1 = idsToAdd p
           ∧ (length (idsToAdd p) ≤ accepted (attached i))%nat)
        ∧ (∀ err, (accepted (attached i) < length (idsToAdd p))%nat →
                  attached i !! accepted (attached i) = Some (Err err) →
                  run.2 = Thrown err)).
Proof.
  cbn zeta.
  assert (Hloop : ∀ e p, processed_to i e p →
            NoDup (idsToAdd p)
            ∧ attached_ids (suggestTagsSampling i entryId).1
              = take (S (accepted (attached i))) (idsToAdd p)
            ∧ (∀ eid id, AddTagToEntry eid id ∈ (suggestTagsSampling i entryId).1 →
                         eid = entry_id e)
            ∧ ((suggestTagsSampling i entryId).2 = Returned tt →
               (length (idsToAdd p) ≤ accepted (attached i))%nat)
            ∧ (∀ err, (accepted (attached i) < length (idsToAdd p))%nat →
                      attached i !! accepted (attached i) = Some (Err err) →
                      (suggestTagsSampling i entryId).2 = Thrown err)).
  { intros e p (Hs & He & existing & current & text & tags & Hx & Hc & Hm & Ht & Hp).
    rewrite (suggestTagsSampling_processed i entryId e existing current text tags p
               Hs He Hx Hc Hm Ht Hp).
    pose proof (process_ids_NoDup existing current tags (created i) p Hp) as Hnd.
    pose proof (process_attaches_nothing existing current tags (created i)) as Hnone.
    rewrite attach_all_spec. cbn [fst snd].
    set (out := if (length (idsToAdd p) <=? accepted (attached i))%nat
                then Returned tt
                else match attached i !! accepted (attached i) with
                     | Some (Err e0) => Thrown e0
                     | _ => Pending
                     end).
    destruct (final_reads i p out) as (Hnil & Hnoadd & _ & Hret & Hthrow & _).
    unfold after. cbn [fst snd].
    split; [exact Hnd |]. split; [| split; [| split]].
    - rewrite !attached_ids_app.
      change (attached_ids (CreateMessage e current existing :: ?l))
        with (attached_ids l).
      now rewrite Hnone, attached_ids_map, Hnil, app_nil_r.
    - intros eid id Hin.
      apply elem_of_app in Hin as [Hin | Hin].
      + apply elem_of_cons in Hin as [Hin | Hin]; [discriminate |].
        assert (Hid : id ∈ attached_ids
                        (parseAndProcessTagSuggestions existing current tags
                                                       (created i)).1).
        { apply list_elem_of_omap. now exists (AddTagToEntry eid id). }
        rewrite Hnone in Hid. inversion Hid.
      + apply elem_of_app in Hin as [Hin | Hin]; [| now apply Hnoadd in Hin].
        apply list_elem_of_fmap in Hin as (y & Heq & _). now injection Heq.
    - intros Hr. apply Hret in Hr. subst out.
      destruct (length (idsToAdd p) <=? accepted (attached i))%nat eqn:Hle.
      + now apply Nat.leb_le.
      + destruct (attached i !! accepted (attached i)) as [[[] | e0] |];
          discriminate.
    - intros err Hlt Herr. rewrite (Hthrow err); [reflexivity |]. subst out.
      rewrite (proj2 (Nat.leb_gt _ _) Hlt), Herr. reflexivity. }
  split; [| split].
  - destruct (unprocessed_attaches_nothing i entryId) as [(e & p & Hp) | [-> _]];
      [| apply NoDup_nil_2].
    destruct (Hloop e p Hp) as (Hnd & -> & _).
    eapply sublist_NoDup; [exact Hnd | apply sublist_take].
  - intros Hsome.
    destruct (unprocessed_attaches_nothing i entryId) as [Hp | [Hnil Hnot]];
      [exact Hp |].
    destruct Hsome as [Hne | [Hs Hr]]; [now destruct Hne | now destruct (Hnot Hs)].
  - intros e p Hp. destruct (Hloop e p Hp) as (Hnd & Hatt & Hto & Hret & Hthrow).
    split; [exact Hatt |]. split; [exact Hto |]. split; [| exact Hthrow].
    intros Hr. specialize (Hret Hr). split; [| exact Hret].
    rewrite Hatt. now apply take_all_of.
Qed.

(** The store rejects the second of three calls: tags 4 and 5 have been
    passed, tag 6 has not, and the call throws.  On the sample call all
    three are attached. *)
Lemma sampling_attaches_in_order_witness :
  attached_ids (suggestTagsSampling Samples.refusing_inputs 7).1 = [4%Z; 5%Z]
  ∧ (suggestTagsSampling Samples.refusing_inputs 7).2 = Thrown "SQLITE_BUSY"
  ∧ attached_ids (suggestTagsSampling Samples.sampling_inputs 7).1 = [4%Z; 5%Z; 6%Z].
Proof.
  pose (p := {| idsToAdd := [4%Z; 5%Z; 6%Z];
                suggestedNewTags := [ByName "travel" None; ByName "travel" (Some "Trips")];
                suggestedExistingTags := [ById 4] |}).
  assert (Hrefusing : processed_to Samples.refusing_inputs Samples.sample_entry p).
  { split; [reflexivity | split; [reflexivity |]].
    exists [Samples.sample_tag; Samples.mood_tag], [Samples.sample_tag],
           "[{...}]", Samples.model_suggestions.
    repeat split; reflexivity. }
  assert (Hsampling : processed_to Samples.sampling_inputs Samples.sample_entry p).
  { split; [reflexivity | split; [reflexivity |]].
    exists [Samples.sample_tag; Samples.mood_tag], [Samples.sample_tag],
           "[{...}]", Samples.model_suggestions.
    repeat split; reflexivity. }
  destruct (proj2 (proj2 (sampling_attaches_in_order Samples.refusing_inputs 7))
              Samples.sample_entry p Hrefusing) as (Hatt & _ & _ & Hthrow).
  destruct (proj2 (proj2 (sampling_attaches_in_order Samples.sampling_inputs 7))
              Samples.sample_entry p Hsampling) as (_ & _ & Hret & _).
  split; [exact Hatt |]. split.
  - apply Hthrow; [cbn; lia | reflexivity].
  - apply Hret. reflexivity.
Defined.

(** The effects of [parseAndProcessTagSuggestions] and when it throws,
    from the answers of the store. *)
Lemma process_effects (existing current : list Tag) (tags : list SuggestedTag)
      (answers : list (Result Tag)) :
  let newTags := List.filter (λ tag, isNewTagSuggestion tag existing)
                             (map (resolve existing) tags) in
  (parseAndProcessTagSuggestions existing current tags answers).1
  = map CreateTag (take (S (accepted answers)) newTags)
  ∧ ∀ err, (parseAndProcessTagSuggestions existing current tags answers).2 = Thrown err
           ↔ ((accepted answers < length newTags)%nat
              ∧ answers !! accepted answers = Some (Err err)).
Proof.
  cbn zeta. unfold parseAndProcessTagSuggestions.
  set (new := List.filter _ _). set (ids := Set_from _).
  destruct (create_all_accepted new answers ids) as [Heff Hout].
  destruct (create_all new answers ids) as [effects out]. cbn [fst snd] in *.
  split; [exact Heff |]. intros err. rewrite <- Hout.
  destruct out; split; intros H; try discriminate; congruence.
Qed.

(** X4.  A failure inside [parseAndProcessTagSuggestions], be it text
    that does not parse into suggestions or a [createTag] the store
    rejects, is logged with the raw text of the model, as the last thing
    the call does, and thrown on to the caller.  A failure outside it is
    thrown without that log: the request or [resultSchema] before, a
    rejected [addTagToEntry] or a failing [listTags] or [getEntry]
    after. *)
Theorem sampling_logs_processing_failures
        (i : Inputs) (entryId : Id) (e : Entry) (existing current : list Tag) :
  sampling i = true → entry i = Returned (Some e) →
  existingTags i = Returned existing → currentTags i = Returned current →
  let run := suggestTagsSampling i entryId in
  let request := CreateMessage e current existing in
  (∀ err, modelResponse i = Thrown err → run = ([request], Thrown err))
  ∧ (∀ text err,
       modelResponse i = Returned text → suggestedTags i = Err err →
       run = (request :: parse_failure text err, Thrown err))
  ∧ (∀ text tags err,
       modelResponse i = Returned text → suggestedTags i = Ok tags →
       let newTags := List.filter (λ tag, isNewTagSuggestion tag existing)
                                  (map (resolve existing) tags) in
       (accepted (created i) < length newTags)%nat →
       created i !! accepted (created i) = Some (Err err) →
       run = ((request :: map CreateTag (take (S (accepted (created i))) newTags)
                 ++ parse_failure text err)%list,
              Thrown err))
  ∧ (∀ p, processed_to i e p →
       (∀ msg err, LogError msg err ∉ run.1)
       ∧ (∀ err, (accepted (attached i) < length (idsToAdd p))%nat →
                 attached i !! accepted (attached i) = Some (Err err) →
                 run.2 = Thrown err)
       ∧ ((length (idsToAdd p) ≤ accepted (attached i))%nat →
          (∀ err, allTags i = Thrown err → run.2 = Thrown err)
          ∧ (∀ all err, allTags i = Returned all → updatedEntry i = Thrown err →
                        run.2 = Thrown err))).
Proof.
  intros Hs He Hx Hc. cbn zeta. split; [| split; [| split]].
  - intros err Hm. unfold suggestTagsSampling. now rewrite Hs, He, Hx, Hc, Hm.
  - intros text err Hm Ht. unfold suggestTagsSampling.
    now rewrite Hs, He, Hx, Hc, Hm, Ht.
  - intros text tags err Hm Ht Hlt Herr.
    destruct (process_effects existing current tags (created i)) as [Heff Hout].
    pose proof (proj2 (Hout err) (conj Hlt Herr)) as Hthrown.
    unfold suggestTagsSampling. rewrite Hs, He, Hx, Hc, Hm, Ht. cbn [negb await].
    unfold parsed_and_processed, catch_parse_failure.
    destruct (parseAndProcessTagSuggestions existing current tags (created i))
      as [effects out].
    cbn [fst snd] in *. subst out effects. unfold after. cbn [fst snd await app].
    now rewrite app_nil_r.
  - intros p Hp.
    pose proof Hp as (_ & _ & existing' & current' & text & tags
                      & Hx' & Hc' & Hm & Ht & Hproc).
    rewrite Hx in Hx'. rewrite Hc in Hc'.
    injection Hx' as <-. injection Hc' as <-.
    rewrite (suggestTagsSampling_processed i entryId e existing current text tags p
               Hs He Hx Hc Hm Ht Hproc).
    destruct (process_effects existing current tags (created i)) as [Heff _].
    rewrite attach_all_spec. cbn [fst snd].
    set (out := if (length (idsToAdd p) <=? accepted (attached i))%nat
                then Returned tt
                else match attached i !! accepted (attached i) with
                     | Some (Err e0) => Thrown e0
                     | _ => Pending
                     end).
    pose proof (final_reads i p out) as (_ & _ & Hnolog & _ & Hthrow & _).
    unfold after. cbn [fst snd]. split; [| split].
    + intros msg err Hin.
      apply elem_of_app in Hin as [Hin | Hin].
      * apply elem_of_cons in Hin as [Hin | Hin]; [discriminate |].
        rewrite Heff in Hin. apply list_elem_of_fmap in Hin as (y & Heq & _).
        discriminate.
      * apply elem_of_app in Hin as [Hin | Hin]; [| now apply Hnolog in Hin].
        apply list_elem_of_fmap in Hin as (y & Heq & _). discriminate.
    + intros err Hlt Herr. rewrite (Hthrow err); [reflexivity |]. subst out.
      rewrite (proj2 (Nat.leb_gt _ _) Hlt), Herr. reflexivity.
    + intros Hle. subst out. rewrite (proj2 (Nat.leb_le _ _) Hle). cbn [await].
      split.
      * intros err ->. reflexivity.
      * intros all err -> ->. reflexivity.
Qed.

(** Text that is no JSON, and a second [createTag] that is rejected. *)
Lemma sampling_logs_processing_failures_witness :
  suggestTagsSampling Samples.garbled_inputs 7
  = ([CreateMessage Samples.sample_entry [Samples.sample_tag]
                    [Samples.sample_tag; Samples.mood_tag];
      ConsoleError "Error parsing tag suggestions";
      LogError "Sure! Here are some tags" "Unexpected token S in JSON at position 0"],
     Thrown "Unexpected token S in JSON at position 0")
  ∧ suggestTagsSampling Samples.uncreated_inputs 7
    = ([CreateMessage Samples.sample_entry [Samples.sample_tag]
                      [Samples.sample_tag; Samples.mood_tag];
        CreateTag (ByName "travel" None);
        CreateTag (ByName "travel" (Some "Trips"));
        ConsoleError "Error parsing tag suggestions";
        LogError "[{...}]" "SQLITE_BUSY"],
       Thrown "SQLITE_BUSY").
Proof.
  split.
  - apply (proj1 (proj2 (sampling_logs_processing_failures
                           Samples.garbled_inputs 7 Samples.sample_entry
                           [Samples.sample_tag; Samples.mood_tag] [Samples.sample_tag]
                           eq_refl eq_refl eq_refl eq_refl)));
      reflexivity.
  - apply (proj1 (proj2 (proj2 (sampling_logs_processing_failures
                                  Samples.uncreated_inputs 7 Samples.sample_entry
                                  [Samples.sample_tag; Samples.mood_tag]
                                  [Samples.sample_tag]
                                  eq_refl eq_refl eq_refl eq_refl)))
             "[{...}]" Samples.model_suggestions "SQLITE_BUSY");
      [reflexivity | reflexivity | cbn; lia | reflexivity].
Defined.

End SamplingFacts.

(** ** More on the subscription registry *)

Section SubscriptionCounting.
Import Subscriptions.

Lemma entry_uri_inj (a b : Id) : entry_uri a = entry_uri b → a = b.
Proof.
  unfold entry_uri. cbn. intros H. injection H as H. now apply (inj pretty).
Qed.

Lemma tag_uri_inj (a b : Id) : tag_uri a = tag_uri b → a = b.
Proof.
  unfold tag_uri. cbn. intros H. injection H as H. now apply (inj pretty).
Qed.

Lemma entry_uri_not_tag_uri (a b : Id) : entry_uri a ≠ tag_uri b.
Proof. unfold entry_uri, tag_uri. cbn. discriminate. Qed.

Lemma notified_app (u : string) (l1 l2 : list Notification) :
  notified u (l1 ++ l2) = (notified u l1 + notified u l2)%nat.
Proof. unfold notified. now rewrite List.filter_app, length_app. Qed.

Lemma notified_cons (u : string) (n : Notification) (ns : list Notification) :
  notified u (n :: ns)
  = ((if String.eqb (uri n) u then 1 else 0) + notified u ns)%nat.
Proof. unfold notified. cbn. now destruct (String.eqb (uri n) u). Qed.

(** A dispatch loop sends nothing to a URI that none of its items is
    rendered to. *)
Lemma notify_each_foreign {X} (mk : X → Notification) (subs : gset string)
      (items : list X) (u : string) :
  (∀ x, uri (mk x) ≠ u) → notified u (notify_each mk subs items) = 0%nat.
Proof.
  intros Hne. induction items as [|x rest IH]; cbn [notify_each]; [reflexivity |].
  case_bool_decide; [| exact IH].
  rewrite notified_cons, IH. specialize (Hne x). apply String.eqb_neq in Hne.
  now rewrite Hne.
Qed.

(** A dispatch loop over identifiers with an injective rendering sends to
    a subscribed URI once for each time the identifier is listed. *)
Lemma notify_each_count (mk : Id → Notification) (subs : gset string)
      (ids : list Id) (id : Id) :
  (∀ a b, uri (mk a) = uri (mk b) → a = b) →
  notified (uri (mk id)) (notify_each mk subs ids)
  = if bool_decide (uri (mk id) ∈ subs) then occurrences id ids else 0%nat.
Proof.
  intros Hinj. induction ids as [|x rest IH]; cbn [notify_each].
  - now case_bool_decide.
  - unfold occurrences in *. cbn [List.filter].
    destruct (N.eqb_spec id x) as [<- | Hne].
    + case_bool_decide as Hsub; [| exact IH].
      rewrite notified_cons, String.eqb_refl, IH. reflexivity.
    + assert (Huri : uri (mk x) ≠ uri (mk id))
        by (intros H; apply Hne; symmetry; auto).
      apply String.eqb_neq in Huri.
      destruct (bool_decide (uri (mk x) ∈ subs)); [| exact IH].
      rewrite notified_cons, Huri. exact IH.
Qed.

(** X5.  One database change sends to the URI of an entry as many point
    notifications as the change lists that entry, when the URI is
    subscribed, and none otherwise; the tags the change lists have no part
    in it.  So a change that does not list the entry sends nothing to its
    URI, and a change that lists it twice sends two.  The same holds for
    tags. *)
Theorem notifications_per_listing (subs : gset string) (changes : Changes) (id : Id) :
  notified (entry_uri id) (onDbChange subs changes)
  = (if bool_decide (entry_uri id ∈ subs)
     then occurrences id (default [] (entries changes)) else 0%nat)
  ∧ notified (tag_uri id) (onDbChange subs changes)
    = (if bool_decide (tag_uri id ∈ subs)
       then occurrences id (default [] (tags changes)) else 0%nat).
Proof.
  unfold onDbChange. rewrite !notified_app. split.
  - rewrite (notify_each_count entry_updated subs _ id entry_uri_inj).
    rewrite (notify_each_foreign tag_updated subs _ (entry_uri id)).
    + apply Nat.add_0_r.
    + intros x H. now apply (entry_uri_not_tag_uri id x).
  - rewrite (notify_each_count tag_updated subs _ id tag_uri_inj).
    rewrite (notify_each_foreign entry_updated subs _ (tag_uri id)).
    + reflexivity.
    + intros x. apply entry_uri_not_tag_uri.
Qed.

Lemma run_cons (subs : gset string) (e : Event) (events : list Event) :
  run subs (e :: events)
  = ((run (step subs e).1 events).1,
     ((step subs e).2 ++ (run (step subs e).1 events).2)%list).
Proof.
  cbn [run]. destruct (step subs e) as [subs' sent]. cbn [fst snd].
  destruct (run subs' events). reflexivity.
Qed.

(** X6.  The subscription set has no multiplicity and no memory: a second
    subscribe request for a URI changes nothing, an unsubscribe request for
    a URI that is not subscribed changes nothing and is no error, and a
    subscribe request followed by an unsubscribe request for a URI that was
    not subscribed leaves the registry as it was.  Whatever happens
    afterwards produces the same notifications. *)
Theorem subscription_requests_compose (subs : gset string) (u : string)
        (events : list Event) :
  run subs (SubscribeRequest u :: SubscribeRequest u :: events)
  = run subs (SubscribeRequest u :: events)
  ∧ (u ∉ subs →
     run subs (UnsubscribeRequest u :: events) = run subs events
     ∧ run subs (SubscribeRequest u :: UnsubscribeRequest u :: events)
       = run subs events).
Proof.
  split; [| intros Hu; split].
  - rewrite !run_cons. cbn [step fst snd].
    now rewrite (assoc_L (∪)), union_idemp_L.
  - rewrite run_cons. cbn [step fst snd app].
    replace (subs ∖ {[u]}) with subs; [now destruct (run subs events) |].
    apply set_eq. intros x. rewrite elem_of_difference, elem_of_singleton.
    split; [| tauto]. intros Hx. split; [assumption |]. now intros ->.
  - rewrite !run_cons. cbn [step fst snd app].
    replace (({[u]} ∪ subs) ∖ {[u]}) with subs; [now destruct (run subs events) |].
    apply set_eq. intros x.
    rewrite elem_of_difference, elem_of_union, elem_of_singleton.
    split; [| tauto]. intros Hx. split; [now right |]. now intros ->.
Qed.

(** Nobody is subscribed; a subscribe and an unsubscribe request for
    entry 7 come before a change of entries 8 and 7. *)
Lemma subscription_requests_compose_witness :
  run ∅ [UnsubscribeRequest (entry_uri 7); DbChange Samples.sample_changes]
  = run ∅ [DbChange Samples.sample_changes]
  ∧ run ∅ [SubscribeRequest (entry_uri 7); UnsubscribeRequest (entry_uri 7);
           DbChange Samples.sample_changes]
    = run ∅ [DbChange Samples.sample_changes].
Proof.
  apply (proj2 (subscription_requests_compose
                  ∅ (entry_uri 7) [DbChange Samples.sample_changes])).
  apply not_elem_of_empty.
Defined.

End SubscriptionCounting.

(** ** More on the dynamic capabilities *)

Section CapabilityTicks.
Import Server.

Lemma step_video_subscribers (w : World) (e : Event) :
  video_subscribers (agent (step w e)) = video_subscribers (agent w).
Proof. now destruct e. Qed.

Lemma run_video_subscribers (events : list Event) :
  ∀ w, video_subscribers (agent (run w events)) = video_subscribers (agent w).
Proof.
  unfold run. induction events as [|e rest IH]; intros w; cbn; [reflexivity |].
  rewrite IH. apply step_video_subscribers.
Qed.

Lemma run_snoc (w : World) (events : list Event) (e : Event) :
  run w (events ++ [e]) = step (run w events) e.
Proof. unfold run. now rewrite fold_left_app. Qed.

(** X7.  A change of the video directory, the one that a finished
    rendering announces included, makes the running server send one
    resource list-changed notification and leaves every enabled flag as it
    is: the video resource is enabled or disabled by the next database
    tick, not by the change of the directory. *)
Theorem video_change_sends_list_changed_only
        (flags0 : Flags) (d0 : Domain) (events : list Event)
        (m : list string → list string) :
  let before := run (boot flags0 d0) events in
  let after := step before (VideoMutation m) in
  flags (server (agent after)) = flags (server (agent before))
  ∧ sent (server (agent after))
    = (sent (server (agent before)) ++ [ResourceListChanged])%list
  ∧ videos (domain after) = m (videos (domain before)).
Proof.
  intros before after. subst after before. cbn [step agent server on_server domain videos].
  rewrite run_video_subscribers. cbn [boot agent main on_server video_subscribers init
    initializePrompts initializeResources db_subscribe subscribeToVideoChanges new_agent
    app publish fold_left].
  pose proof (boot_run_connected flags0 d0 events) as Hc.
  unfold sendResourceListChanged, send. rewrite Hc. cbn. auto.
Qed.

(** X8.  What a database tick of the running server sends is decided by
    how the data changed since the previous tick: after the unconditional
    resource notification comes one notification for each capability whose
    predicate has another value on the new data than on the old, in the
    order in which the tick visits them.  A mutation that leaves every
    predicate as it was sends the unconditional notification alone. *)
Theorem tick_notifications_follow_data
        (flags0 : Flags) (d0 : Domain) (events : list Event)
        (m1 m2 : Domain → Domain) :
  let w1 := step (run (boot flags0 d0) events) (DbMutation m1) in
  let w2 := step w1 (DbMutation m2) in
  sent (server (agent w2))
  = (sent (server (agent w1))
       ++ ResourceListChanged
       :: map list_changed_of
              (filter (λ c, predicate c (domain w1) ≠ predicate c (domain w2))
                      capabilities))%list.
Proof.
  intros w1 w2. subst w2 w1.
  rewrite <- (run_snoc (boot flags0 d0) events (DbMutation m1)).
  rewrite (step_db_mutation flags0 d0 (events ++ [DbMutation m1]) m2).
  rewrite db_tick_sent by apply boot_run_connected.
  do 3 f_equal. unfold flipped. apply list_filter_iff. intros c.
  rewrite db_tick_flags.
  rewrite (run_snoc (boot flags0 d0) events (DbMutation m1)).
  rewrite (step_db_mutation flags0 d0 events m1), db_tick_flags.
  reflexivity.
Qed.

End CapabilityTicks.

(** ** More on the tools *)

Section ToolComposition.
Import Tools.

Lemma delete_entry_lookup (db : DB) (id j : Id) :
  getEntry (delete_entry db id).1 j = if decide (id = j) then None else getEntry db j.
Proof.
  unfold delete_entry. destruct (getEntry db id) as [e |] eqn:He; cbn.
  - unfold getEntry. cbn. apply lookup_delete.
  - case_decide; [now subst | reflexivity].
Qed.

(** X9.  After [delete_entry] has been called with an identifier, with
    or without success, [get_entry] and a second [delete_entry] with that
    identifier fail with the not-found error and change nothing, while
    [get_entry] answers for every other identifier as it did before. *)
Theorem deleted_entry_is_gone (db : DB) (id : Id) :
  let db' := (delete_entry db id).1 in
  get_entry db' id = (db', Err (entry_not_found id))
  ∧ delete_entry db' id = (db', Err (entry_not_found id))
  ∧ ∀ j, j ≠ id → (get_entry db' j).2 = (get_entry db j).2.
Proof.
  intros db'. subst db'.
  pose proof (delete_entry_lookup db id) as Hlook.
  split; [| split].
  - unfold get_entry. rewrite Hlook. now rewrite decide_True.
  - unfold delete_entry at 1 3. rewrite Hlook. now rewrite decide_True.
  - intros j Hj. unfold get_entry. rewrite Hlook.
    rewrite decide_False by congruence. now destruct (getEntry db j).
Qed.

Lemma deleted_entry_is_gone_witness :
  (get_entry (delete_entry Samples.sample_db 9).1 7).2
  = (get_entry Samples.sample_db 7).2.
Proof.
  apply (proj2 (proj2 (deleted_entry_is_gone Samples.sample_db 9))). discriminate.
Defined.

End ToolComposition.

(** ** More on the video subscribers and on the progress stream *)

Section VideoParsing.
Import Video.

Lemma notifySubscribers_invokes_members (subscribers : list Subscriber) (id : nat) :
  Invoked id ∈ (notifySubscribers subscribers).1 →
  existsb (has_id id) subscribers = true.
Proof.
  induction subscribers as [|s rest IH]; cbn.
  - intros H. inversion H.
  - unfold has_id at 1. destruct (sub_throws s).
    + intros H. apply list_elem_of_singleton in H. injection H as ->.
      now rewrite Nat.eqb_refl.
    + destruct (notifySubscribers rest) as [effects r]. cbn in *.
      intros H. apply elem_of_cons in H as [H | H].
      * injection H as ->. now rewrite Nat.eqb_refl.
      * rewrite (IH H). apply orb_true_r.
Qed.

Lemma unsubscribe_removes (s : Subscriber) (subscribers : list Subscriber) :
  existsb (has_id (sub_id s)) (unsubscribe s subscribers) = false.
Proof.
  unfold unsubscribe. induction subscribers as [|x rest IH]; cbn; [reflexivity |].
  destruct (has_id (sub_id s) x) eqn:Hx; cbn; [exact IH |]. now rewrite Hx.
Qed.

Lemma unsubscribe_absent (s : Subscriber) (subscribers : list Subscriber) :
  existsb (has_id (sub_id s)) subscribers = false → unsubscribe s subscribers = subscribers.
Proof.
  unfold unsubscribe. induction subscribers as [|x rest IH]; cbn; [reflexivity |].
  intros H. apply orb_false_iff in H as [Hx Hrest]. rewrite Hx. cbn.
  now rewrite (IH Hrest).
Qed.

Lemma has_id_self (s : Subscriber) : has_id (sub_id s) s = true.
Proof. unfold has_id. apply Nat.eqb_refl. Qed.

(** X10.  The subscribers of the video module form a set: subscribing a
    callback a second time changes nothing; a callback that has been
    unsubscribed is not invoked by [notifySubscribers]; and unsubscribing
    right after subscribing a callback that was not registered restores
    the subscribers as they were, in their order. *)
Theorem video_subscribers_form_a_set (subscribers : list Subscriber) (s : Subscriber) :
  subscribe s (subscribe s subscribers) = subscribe s subscribers
  ∧ (Invoked (sub_id s) ∉ (notifySubscribers (unsubscribe s subscribers)).1)
  ∧ (existsb (has_id (sub_id s)) subscribers = false →
     unsubscribe s (subscribe s subscribers) = subscribers).
Proof.
  split; [| split].
  - unfold subscribe at 2.
    destruct (existsb (has_id (sub_id s)) subscribers) eqn:Hin.
    + unfold subscribe. now rewrite Hin.
    + unfold subscribe. rewrite existsb_app. cbn [existsb].
      now rewrite has_id_self, orb_true_r, Hin.
  - intros H. apply notifySubscribers_invokes_members in H.
    now rewrite unsubscribe_removes in H.
  - intros Hin. unfold subscribe. rewrite Hin. unfold unsubscribe.
    rewrite List.filter_app. cbn [List.filter]. rewrite has_id_self. cbn [negb].
    rewrite app_nil_r. now apply unsubscribe_absent.
Qed.

Lemma video_subscribers_form_a_set_witness :
  unsubscribe Samples.quiet_subscriber
              (subscribe Samples.quiet_subscriber [Samples.failing_subscriber])
  = [Samples.failing_subscriber].
Proof.
  apply (proj2 (proj2 (video_subscribers_form_a_set
                         [Samples.failing_subscriber] Samples.quiet_subscriber))).
  reflexivity.
Defined.

Lemma digit_of_nat (d : nat) :
  (d < 10)%nat → digit (Ascii.ascii_of_nat (48 + d)) = Some d.
Proof.
  intros Hd. do 10 (destruct d as [|d]; [reflexivity |]). lia.
Qed.

Lemma two_digits_of_nat (n : nat) :
  (n < 100)%nat →
  two_digits (Ascii.ascii_of_nat (48 + n / 10)) (Ascii.ascii_of_nat (48 + n mod 10))
  = Some n.
Proof.
  intros Hn. unfold two_digits.
  rewrite !digit_of_nat.
  - f_equal. symmetry. apply Nat.div_mod_eq.
  - apply Nat.mod_upper_bound. lia.
  - apply Nat.Div0.div_lt_upper_bound. lia.
Qed.

Lemma time_here_shape (h1 h2 m1 m2 s1 s2 f1 f2 : Ascii.ascii) (suf : list Ascii.ascii) :
  time_here (String.list_ascii_of_string "time="
               ++ [h1; h2; ":"%char; m1; m2; ":"%char; s1; s2; "."%char; f1; f2] ++ suf)
  = match two_digits h1 h2, two_digits m1 m2, two_digits s1 s2, two_digits f1 f2 with
    | Some h, Some m, Some s, Some f => Some (h, m, s, f)
    | _, _, _, _ => None
    end.
Proof. reflexivity. Qed.

Lemma time_here_stamp (h m s f : nat) (suf : list Ascii.ascii) :
  (h < 100)%nat → (m < 100)%nat → (s < 100)%nat → (f < 100)%nat →
  time_here (stamp h m s f ++ suf) = Some (h, m, s, f).
Proof.
  intros Hh Hm Hs Hf.
  change (stamp h m s f ++ suf)%list
    with (String.list_ascii_of_string "time="
            ++ [Ascii.ascii_of_nat (48 + h / 10); Ascii.ascii_of_nat (48 + h mod 10);
                ":"%char;
                Ascii.ascii_of_nat (48 + m / 10); Ascii.ascii_of_nat (48 + m mod 10);
                ":"%char;
                Ascii.ascii_of_nat (48 + s / 10); Ascii.ascii_of_nat (48 + s mod 10);
                "."%char;
                Ascii.ascii_of_nat (48 + f / 10); Ascii.ascii_of_nat (48 + f mod 10)]
            ++ suf)%list.
  rewrite time_here_shape, !two_digits_of_nat by assumption. reflexivity.
Qed.

Lemma time_here_not_t (c : Ascii.ascii) (rest : list Ascii.ascii) :
  Ascii.eqb c "t" = false → time_here (c :: rest) = None.
Proof.
  intros Hc. unfold time_here. cbn [String.list_ascii_of_string starts_with].
  now rewrite Ascii.eqb_sym, Hc.
Qed.

Lemma match_time_unfold (s : list Ascii.ascii) :
  match_time s
  = match time_here s with
    | Some t => Some t
    | None => match s with [] => None | _ :: rest => match_time rest end
    end.
Proof. now destruct s. Qed.

(** X11.  The stderr listener reads the renderer's time stamp back: on a
    chunk that shows [time=HH:MM:SS.FF] after text without the letter t,
    whatever follows, further stamps included, the pattern yields these
    hours, minutes, seconds and hundredths. *)
Theorem match_time_reads_the_first_stamp
        (h m s f : nat) (pre suf : list Ascii.ascii) :
  (h < 100)%nat → (m < 100)%nat → (s < 100)%nat → (f < 100)%nat →
  forallb (λ c, negb (Ascii.eqb c "t")) pre = true →
  match_time (pre ++ stamp h m s f ++ suf) = Some (h, m, s, f).
Proof.
  intros Hh Hm Hs Hf Hpre. induction pre as [|c pre IH].
  - cbn [app]. rewrite match_time_unfold. now rewrite time_here_stamp.
  - cbn in Hpre. apply andb_true_iff in Hpre as [Hc Hpre].
    apply negb_true_iff in Hc.
    cbn [app]. rewrite match_time_unfold, (time_here_not_t c _ Hc). now apply IH.
Qed.

Lemma match_time_reads_the_first_stamp_witness :
  match_time (String.list_ascii_of_string "frame= 720 fps= 24 "
                ++ stamp 0 0 30 0
                ++ String.list_ascii_of_string " bitrate= 12.1kbits/s time=00:00:45.00")
  = Some (0, 0, 30, 0)%nat.
Proof.
  apply match_time_reads_the_first_stamp; try lia. reflexivity.
Defined.

End VideoParsing.

(** ** More on the run of a rendering *)

Section RenderingFacts.
Import Video.

Lemma Qnat_add (a b : nat) : (Qnat (a + b) == Qnat a + Qnat b)%Q.
Proof. unfold Qnat. now rewrite Nat2Z.inj_add, inject_Z_plus. Qed.

Lemma Qnat_mul (a b : nat) : (Qnat (a * b) == Qnat a * Qnat b)%Q.
Proof. unfold Qnat. now rewrite Nat2Z.inj_mul, inject_Z_mult. Qed.

Lemma Qnat_le (a b : nat) : (a ≤ b)%nat → (Qnat a <= Qnat b)%Q.
Proof. intros H. unfold Qnat. rewrite <- Zle_Qle. lia. Qed.

Lemma Qnat_lt (a b : nat) : (a < b)%nat → (Qnat a < Qnat b)%Q.
Proof. intros H. unfold Qnat. rewrite <- Zlt_Qlt. lia. Qed.

(** [currentSeconds] of the listener, in hundredths of a second. *)
Lemma currentSeconds_centiseconds (h m s f : nat) :
  (Qnat h * 3600 + Qnat m * 60 + Qnat s + Qnat f / 100
   == Qnat (centiseconds (h, m, s, f)) / 100)%Q.
Proof.
  unfold centiseconds. rewrite Qnat_add, Qnat_mul, !Qnat_add, !Qnat_mul.
  change (Qnat 3600) with 3600%Q. change (Qnat 60) with 60%Q.
  change (Qnat 100) with 100%Q. field.
Qed.

Lemma progress_of_time_centiseconds (t : nat * nat * nat * nat) :
  (progress_of_time t == Qmin (Qnat (centiseconds t) / 6000) 1)%Q.
Proof.
  destruct t as [[[h m] s] f]. unfold progress_of_time, totalDurationSeconds.
  assert (H : ((Qnat h * 3600 + Qnat m * 60 + Qnat s + Qnat f / 100) / 60
               == Qnat (centiseconds (h, m, s, f)) / 6000)%Q).
  { rewrite currentSeconds_centiseconds. field. }
  destruct (Q.min_spec ((Qnat h * 3600 + Qnat m * 60 + Qnat s + Qnat f / 100) / 60) 1)
    as [[Hlt ->] | [Hle ->]];
    destruct (Q.min_spec (Qnat (centiseconds (h, m, s, f)) / 6000) 1)
      as [[Hlt' ->] | [Hle' ->]]; try assumption; try reflexivity.
  - rewrite H in Hlt. lra.
  - rewrite H in Hle. lra.
Qed.

(** X12.  The progress a report stands for grows with the elapsed time
    it shows, is the elapsed time over sixty seconds as long as that is
    less than a minute, and is 1 from one minute on. *)
Theorem progress_follows_elapsed_time (t t' : nat * nat * nat * nat) :
  ((centiseconds t ≤ centiseconds t')%nat → (progress_of_time t <= progress_of_time t')%Q)
  ∧ ((centiseconds t < 60 * 100)%nat →
     (progress_of_time t == Qnat (centiseconds t) / 6000)%Q
     ∧ (progress_of_time t < 1)%Q)
  ∧ ((60 * 100 ≤ centiseconds t)%nat → (progress_of_time t == 1)%Q).
Proof.
  assert (Hsix : (Qnat (60 * 100) == 6000)%Q) by reflexivity.
  split; [| split].
  - intros Hle. rewrite !progress_of_time_centiseconds.
    apply Q.min_le_compat_r. apply Qdiv_le_mono; [reflexivity |].
    now apply Qnat_le.
  - intros Hlt. rewrite progress_of_time_centiseconds.
    assert (Hq : (Qnat (centiseconds t) / 6000 < 1)%Q).
    { apply Qlt_shift_div_r; [reflexivity |]. rewrite Qmult_1_l, <- Hsix.
      now apply Qnat_lt. }
    rewrite Q.min_l by now apply Qlt_le_weak. split; [reflexivity | assumption].
  - intros Hge. rewrite progress_of_time_centiseconds.
    apply Q.min_r. apply Qle_shift_div_l; [reflexivity |].
    rewrite Qmult_1_l, <- Hsix. now apply Qnat_le.
Qed.

Lemma progress_follows_elapsed_time_witness :
  (progress_of_time (0, 0, 30, 0)%nat <= progress_of_time (0, 0, 45, 50)%nat)%Q
  ∧ (progress_of_time (0, 1, 30, 0)%nat == 1)%Q.
Proof.
  split.
  - apply (proj1 (progress_follows_elapsed_time (0, 0, 30, 0)%nat (0, 0, 45, 50)%nat)).
    vm_compute. lia.
  - apply (proj2 (proj2 (progress_follows_elapsed_time (0, 1, 30, 0)%nat (0, 0, 0, 0)%nat))).
    vm_compute. lia.
Defined.

(** X13.  When no abort arrives, the exit code of the renderer decides
    how a rendering ends.  With code 0 the call forwards the final 1,
    removes its abort listener and then invokes the subscribers in
    registration order: it returns the video URI when each of them
    returns, and when one throws it invokes none after that one and
    throws its error.  With any other code, no code included, it removes
    the listener and throws the error that shows the code, without a
    final 1 and without invoking a subscriber. *)
Theorem render_outcome_follows_exit_code
        (amb : Ambient) (subscribers : list Subscriber) (args : Args)
        (pre : list Event) (code : option Z) (rest : list Event) :
  mock_mode args = None →
  forallb (λ e, negb (is_close e) && negb (is_abort e)) pre = true →
  let r := createWrappedVideo amb subscribers args false
             (MkdirDone (Ok tt) :: pre ++ Close code :: rest) in
  let start :=
    Mkdir :: Spawn (scene_of (overlays amb (entries args) (tags args) (year args)))
          :: AddAbortListener :: map OnProgress (renderer_reports pre) in
  (code = Some 0%Z →
   r = ((start ++ OnProgress 1 :: RemoveAbortListener
           :: (notifySubscribers subscribers).1)%list,
        match (notifySubscribers subscribers).2 with
        | Ok _ => Returned (videoUri (year args))
        | Err e => Thrown e
        end)
   ∧ (forallb returns subscribers = true →
      r = ((start ++ OnProgress 1 :: RemoveAbortListener
              :: invocations subscribers)%list,
           Returned (videoUri (year args))))
   ∧ (∀ before s later e,
        subscribers = (before ++ s :: later)%list →
        forallb returns before = true → sub_throws s = Some e →
        r = ((start ++ OnProgress 1 :: RemoveAbortListener
                :: invocations (before ++ [s]))%list,
             Thrown e)))
  ∧ (code ≠ Some 0%Z →
     r = ((start ++ [RemoveAbortListener])%list, Thrown (exit_message code))).
Proof.
  intros Hmode Hpre r start. subst r start.
  unfold createWrappedVideo. rewrite Hmode. unfold real_run. cbn.
  rewrite ffmpeg_running_prefix by exact Hpre. cbn. split.
  - intros ->. cbn.
    destruct (notifySubscribers subscribers) as [effects out] eqn:Hdispatch.
    cbn [fst snd]. split; [reflexivity | split].
    + intros Hsubs.
      rewrite (notifySubscribers_all_return subscribers Hsubs) in Hdispatch.
      now injection Hdispatch as <- <-.
    + intros before s later e -> Hbefore Hs.
      rewrite (notifySubscribers_first_throw before later s e Hbefore Hs)
        in Hdispatch.
      now injection Hdispatch as <- <-.
  - intros Hcode. destruct code as [[| p | p] |]; try reflexivity. congruence.
Qed.

(** The renderer exits with code 1; and it exits with code 0 while the
    first of two subscribers throws. *)
Lemma render_outcome_follows_exit_code_witness :
  (createWrappedVideo Samples.kody [Samples.quiet_subscriber] Samples.real_args false
     (MkdirDone (Ok tt) :: [] ++ Close (Some 1%Z) :: [])).2
  = Thrown "ffmpeg exited with code 1"
  ∧ (createWrappedVideo Samples.kody
       [Samples.failing_subscriber; Samples.quiet_subscriber] Samples.real_args false
       (MkdirDone (Ok tt) :: [] ++ Close (Some 0%Z) :: [])).2
    = Thrown "transport closed".
Proof.
  split.
  - pose proof (render_outcome_follows_exit_code
                  Samples.kody [Samples.quiet_subscriber] Samples.real_args
                  [] (Some 1%Z) [] eq_refl eq_refl) as [_ Hfail].
    rewrite Hfail by discriminate. reflexivity.
  - pose proof (render_outcome_follows_exit_code
                  Samples.kody [Samples.failing_subscriber; Samples.quiet_subscriber]
                  Samples.real_args [] (Some 0%Z) [] eq_refl eq_refl) as [Hzero _].
    destruct (Hzero eq_refl) as (_ & _ & Hthrow).
    rewrite (Hthrow [] Samples.failing_subscriber [Samples.quiet_subscriber]
                    "transport closed" eq_refl eq_refl eq_refl).
    reflexivity.
Defined.

Lemma count_app (p : Effect → bool) (l1 l2 : list Effect) :
  count p (l1 ++ l2) = (count p l1 + count p l2)%nat.
Proof. unfold count. now rewrite List.filter_app, length_app. Qed.

Lemma count_progress_only (p : Effect → bool) (ps : list Q) :
  (∀ q, p (OnProgress q) = false) → count p (map OnProgress ps) = 0%nat.
Proof.
  intros Hp. unfold count. induction ps as [|q ps IH]; cbn; [reflexivity |].
  now rewrite Hp.
Qed.

Lemma count_invocations (p : Effect → bool) (subscribers : list Subscriber) :
  (∀ id, p (Invoked id) = false) → count p (notifySubscribers subscribers).1 = 0%nat.
Proof.
  intros Hp. unfold count. induction subscribers as [|s rest IH]; cbn; [reflexivity |].
  destruct (sub_throws s); cbn; [now rewrite Hp |].
  destruct (notifySubscribers rest). cbn in *. now rewrite Hp.
Qed.

Lemma count_onStderr (p : Effect → bool) (data : string) :
  (∀ q, p (OnProgress q) = false) → count p (onStderr data) = 0%nat.
Proof. intros Hp. rewrite onStderr_reports. now apply count_progress_only. Qed.

(** While the renderer runs: nothing is spawned and no listener added,
    the kill signal is sent at most once and not at all once the signal
    is aborted, and the listener is removed exactly when the run ends. *)
Lemma ffmpeg_running_counts (year : Z) (subscribers : list Subscriber)
      (events : list Event) :
  ∀ aborted killed,
    count is_spawn (ffmpeg_running year subscribers aborted killed events).1 = 0%nat
    ∧ count is_add_listener (ffmpeg_running year subscribers aborted killed events).1
      = 0%nat
    ∧ (count is_kill (ffmpeg_running year subscribers aborted killed events).1
       ≤ (if aborted || killed then 0 else 1))%nat
    ∧ count is_remove_listener (ffmpeg_running year subscribers aborted killed events).1
      = (if is_pending (ffmpeg_running year subscribers aborted killed events).2
         then 0 else 1)%nat.
Proof.
  induction events as [|e rest IH]; intros aborted killed.
  - cbn. destruct (aborted || killed); repeat split; lia.
  - destruct e as [| | r | data | code]; cbn [ffmpeg_running].
    + destruct aborted; [apply IH |]. destruct killed.
      * destruct (IH true true) as (H1 & H2 & H3 & H4). cbn in *. repeat split; auto.
      * destruct (IH true true) as (H1 & H2 & H3 & H4).
        destruct (ffmpeg_running year subscribers true true rest) as [effects out].
        cbn [fst snd orb] in *. unfold count in *. cbn. repeat split; auto. lia.
    + apply IH.
    + apply IH.
    + destruct (IH aborted killed) as (H1 & H2 & H3 & H4).
      destruct (ffmpeg_running year subscribers aborted killed rest) as [effects out].
      cbn [fst snd] in *. rewrite !count_app, !count_onStderr by reflexivity.
      repeat split; auto.
    + destruct aborted; [cbn; repeat split; lia |].
      destruct code as [[| p | p] |];
        try (cbn; destruct killed; repeat split; lia).
      pose proof (count_invocations is_spawn subscribers (λ _, eq_refl)) as H1.
      pose proof (count_invocations is_add_listener subscribers (λ _, eq_refl)) as H2.
      pose proof (count_invocations is_kill subscribers (λ _, eq_refl)) as H3.
      pose proof (count_invocations is_remove_listener subscribers (λ _, eq_refl)) as H4.
      destruct (notifySubscribers subscribers) as [effects r].
      cbn [fst snd] in *. unfold count in *. cbn.
      rewrite H1, H2, H3, H4.
      destruct r; destruct killed; cbn; repeat split; lia.
Qed.

Lemma awaiting_mkdir_counts (year : Z) (subscribers : list Subscriber)
      (scene : list (string * string * nat * Q * Q)) (events : list Event) :
  ∀ aborted,
    let r := awaiting_mkdir year subscribers scene aborted events in
    (count is_spawn r.1 ≤ 1)%nat
    ∧ count is_add_listener r.1 = count is_spawn r.1
    ∧ (count is_kill r.1 ≤ count is_spawn r.1)%nat
    ∧ count is_remove_listener r.1
      = (if is_pending r.2 then 0 else count is_spawn r.1)%nat.
Proof.
  induction events as [|e rest IH]; intros aborted; [cbn; repeat split; lia |].
  destruct e as [| | r | data | code]; cbn [awaiting_mkdir]; try apply IH.
  destruct r as [[] | msg]; [| cbn; repeat split; lia].
  destruct (ffmpeg_running_counts year subscribers rest aborted false)
    as (H1 & H2 & H3 & H4).
  destruct (ffmpeg_running year subscribers aborted false rest) as [effects out].
  cbn [fst snd] in *. unfold count in *. cbn. rewrite H1, H2, H4.
  destruct aborted; cbn in H3; destruct (is_pending out); repeat split; lia.
Qed.

Lemma mock_iteration_counts (p : Effect → bool) (year : Z) (mockTime i : Q)
      (aborted : bool) (rest : list Effect * Outcome) :
  (∀ q, p (OnProgress q) = false) → count p rest.1 = 0%nat →
  count p (mock_iteration year mockTime i aborted rest).1 = 0%nat.
Proof.
  intros Hp Hrest. unfold mock_iteration, count in *.
  destruct (Qlt_bool i mockTime); [| cbn; now rewrite Hp].
  destruct aborted; [reflexivity |].
  destruct (Qle_bool 1 (i / mockTime)); cbn; now rewrite Hp.
Qed.

Lemma mock_sleep_counts (p : Effect → bool) (year : Z) (mockTime step : Q)
      (events : list Event) :
  (∀ q, p (OnProgress q) = false) →
  ∀ i aborted, count p (mock_sleep year mockTime step i aborted events).1 = 0%nat.
Proof.
  intros Hp. induction events as [|e rest IH]; intros i aborted; cbn; [reflexivity |].
  destruct e; try apply IH. apply mock_iteration_counts; [assumption | apply IH].
Qed.

(** X14.  Whatever happens during a call of [createWrappedVideo], it
    starts at most one renderer, registers its abort listener exactly when
    it starts one, sends the kill signal at most once and only to a
    renderer it started, and has removed the listener by the time the call
    ends, whichever way it ends; while the call is pending the listener
    stays.  A call in mock mode starts no renderer and registers
    nothing. *)
Theorem renderer_and_listener_are_scoped
        (amb : Ambient) (subscribers : list Subscriber) (args : Args)
        (aborted : bool) (events : list Event) :
  let r := createWrappedVideo amb subscribers args aborted events in
  (count is_spawn r.1 ≤ 1)%nat
  ∧ count is_add_listener r.1 = count is_spawn r.1
  ∧ (count is_kill r.1 ≤ count is_spawn r.1)%nat
  ∧ count is_remove_listener r.1
    = (if is_pending r.2 then 0 else count is_spawn r.1)%nat
  ∧ (∀ t, mock_mode args = Some t → count is_spawn r.1 = 0%nat).
Proof.
  unfold createWrappedVideo. destruct aborted; cbn zeta.
  { cbn. repeat split; lia. }
  destruct (mock_mode args) as [t |].
  - unfold mock_run.
    assert (Hzero : ∀ p, (∀ q, p (OnProgress q) = false) →
              count p (mock_iteration (year args) t 0 false
                         (mock_sleep (year args) t (t / 10) 0 false events)).1 = 0%nat).
    { intros p Hp. apply mock_iteration_counts; [assumption |].
      now apply mock_sleep_counts. }
    rewrite (Hzero is_spawn), (Hzero is_add_listener), (Hzero is_kill),
      (Hzero is_remove_listener) by reflexivity.
    repeat split; try lia. now destruct (is_pending _).
  - unfold real_run.
    pose proof (awaiting_mkdir_counts (year args) subscribers
                  (scene_of (overlays amb (entries args) (tags args) (year args)))
                  events false) as H.
    destruct (awaiting_mkdir _ _ _ _ _) as [effects out]. cbn [fst snd] in *.
    unfold count in *. cbn. destruct H as (H1 & H2 & H3 & H4).
    repeat split; auto. discriminate.
Qed.

Lemma renderer_and_listener_are_scoped_witness :
  count is_spawn
        (createWrappedVideo Samples.kody [] Samples.mock_args false Samples.ten_timers).1
  = 0%nat.
Proof.
  apply (proj2 (proj2 (proj2 (proj2 (renderer_and_listener_are_scoped
                                       Samples.kody [] Samples.mock_args false
                                       Samples.ten_timers)))) 1000%Q).
  reflexivity.
Defined.

Lemma Qlt_bool_intro (x y : Q) : (x < y)%Q → Qlt_bool x y = true.
Proof. unfold Qlt_bool. rewrite Qlt_alt. now intros ->. Qed.

Lemma Qlt_bool_elim_false (x y : Q) : (y <= x)%Q → Qlt_bool x y = false.
Proof.
  intros Hle. destruct (Qlt_bool x y) eqn:H; [| reflexivity].
  apply Qlt_bool_true in H. lra.
Qed.

Lemma Qle_bool_intro_false (x y : Q) : (y < x)%Q → Qle_bool x y = false.
Proof.
  intros Hlt. destruct (Qle_bool x y) eqn:H; [| reflexivity].
  apply Qle_bool_iff in H. lra.
Qed.

(** The counter after [k] passes is [k] tenths of the mock time. *)
Lemma mock_counter_value (t : Q) (k : nat) :
  (mock_counter t k == Qnat k * (t / 10))%Q.
Proof.
  induction k as [|k IH]; cbn [mock_counter].
  - change (Qnat 0) with 0%Q. ring.
  - rewrite IH. replace (S k) with (k + 1)%nat by lia. rewrite Qnat_add.
    change (Qnat 1) with 1%Q. ring.
Qed.

Lemma mock_counter_below (t : Q) (k : nat) :
  (0 < t)%Q → (k < 10)%nat → (mock_counter t k < t)%Q.
Proof.
  intros Ht Hk. rewrite mock_counter_value.
  assert (Hu : (0 < t / 10)%Q) by (apply Qlt_shift_div_l; [reflexivity | lra]).
  assert (Hten : (t == 10 * (t / 10))%Q) by field.
  rewrite Hten at 2. apply Qmult_lt_compat_r; [assumption |].
  change 10%Q with (Qnat 10). now apply Qnat_lt.
Qed.

Lemma mock_counter_ten (t : Q) : (mock_counter t 10 == t)%Q.
Proof. rewrite mock_counter_value. change (Qnat 10) with 10%Q. field. Qed.

Lemma mock_counter_fraction (t : Q) (k : nat) :
  (0 < t)%Q → (mock_counter t k / t == Qnat k / 10)%Q.
Proof.
  intros Ht. rewrite mock_counter_value. field. intros H. rewrite H in Ht. lra.
Qed.

(** One pass of the mock loop at counter [k]: before the tenth pass it
    checks the signal and reports; the tenth pass leaves the loop. *)
Lemma mock_iteration_pass (year : Z) (t : Q) (k : nat) (aborted : bool)
      (rest : list Effect * Outcome) :
  (0 < t)%Q → (k < 10)%nat →
  mock_iteration year t (mock_counter t k) aborted rest
  = if aborted then ([], Thrown (cancelled year))
    else (OnProgress (mock_counter t k / t) :: rest.1, rest.2).
Proof.
  intros Ht Hk. unfold mock_iteration.
  rewrite (Qlt_bool_intro _ _ (mock_counter_below t k Ht Hk)).
  destruct aborted; [reflexivity |].
  rewrite Qle_bool_intro_false; [reflexivity |].
  apply Qlt_shift_div_r; [assumption |]. rewrite Qmult_1_l.
  now apply mock_counter_below.
Qed.

Lemma mock_iteration_last (year : Z) (t : Q) (aborted : bool)
      (rest : list Effect * Outcome) :
  mock_iteration year t (mock_counter t 10) aborted rest
  = ([OnProgress 1], Returned (videoUri year)).
Proof.
  unfold mock_iteration. rewrite Qlt_bool_elim_false; [reflexivity |].
  rewrite mock_counter_ten. apply Qle_refl.
Qed.

(** The mock loop asleep after pass [k], left alone for [n] timers that
    do not exhaust the ten passes. *)
Lemma mock_sleep_timers (year : Z) (t : Q) (n : nat) :
  (0 < t)%Q →
  ∀ k rest,
    (k + n < 10)%nat →
    mock_sleep year t (t / 10) (mock_counter t k) false (repeat TimerFired n ++ rest)
    = ((map (λ j, OnProgress (mock_counter t j / t)) (seq (S k) n)
        ++ (mock_sleep year t (t / 10) (mock_counter t (k + n)) false rest).1)%list,
       (mock_sleep year t (t / 10) (mock_counter t (k + n)) false rest).2).
Proof.
  intros Ht. induction n as [|n IH]; intros k rest Hk.
  - cbn. rewrite Nat.add_0_r. now destruct (mock_sleep _ _ _ _ _ rest).
  - cbn [repeat app mock_sleep].
    change (mock_counter t k + t / 10)%Q with (mock_counter t (S k)).
    rewrite mock_iteration_pass by (assumption || lia).
    rewrite (IH (S k) rest) by lia. cbn [fst snd seq map app].
    now replace (S k + n)%nat with (k + S n)%nat by lia.
Qed.

(** X15.  A mock run whose mock time is a whole number of tens of
    milliseconds and whose signal stays quiet takes exactly ten sleeps: it
    is still pending after fewer than ten timers, and with the tenth it
    has reported 0, 1/10, and so on to 9/10, then 1, and returns the video
    URI. *)
Theorem mock_run_takes_ten_sleeps (year : Z) (tens : positive) :
  let t := inject_Z (Zpos (10 * tens)) in
  mock_run year t (repeat TimerFired 10)
  = ((map (λ j, OnProgress (mock_counter t j / t)) (seq 0 10) ++ [OnProgress 1])%list,
     Returned (videoUri year))
  ∧ (∀ j, (j < 10)%nat → (mock_counter t j / t == Qnat j / 10)%Q)
  ∧ (∀ n, (n < 10)%nat → (mock_run year t (repeat TimerFired n)).2 = Pending).
Proof.
  intros t. assert (Ht : (0 < t)%Q) by reflexivity.
  split; [| split].
  - unfold mock_run. change 0%Q with (mock_counter t 0) at 1 2.
    change (repeat TimerFired 10) with (repeat TimerFired 9 ++ [TimerFired])%list.
    rewrite (mock_sleep_timers year t 9 Ht 0 [TimerFired]) by lia.
    rewrite mock_iteration_pass by (assumption || lia).
    cbn [fst snd Nat.add mock_sleep].
    change (mock_counter t 9 + t / 10)%Q with (mock_counter t 10).
    rewrite mock_iteration_last. reflexivity.
  - intros j _. now apply mock_counter_fraction.
  - intros n Hn. unfold mock_run. change 0%Q with (mock_counter t 0) at 1 2.
    rewrite <- (app_nil_r (repeat TimerFired n)).
    rewrite (mock_sleep_timers year t n Ht 0 []) by lia.
    rewrite mock_iteration_pass by (assumption || lia). reflexivity.
Qed.

Lemma mock_run_takes_ten_sleeps_witness :
  (mock_run 2026 1000 (repeat TimerFired 4)).2 = Pending.
Proof.
  apply (proj2 (proj2 (mock_run_takes_ten_sleeps 2026 100)) 4%nat). lia.
Defined.

(** X16.  In a mock run, an abort that arrives during one of the first
    nine sleeps ends the call at the next pass of the loop: the call has
    reported the fractions of the passes made so far, reports nothing
    more, and throws the cancellation error. *)
Theorem mock_run_notices_abort_at_next_pass
        (amb : Ambient) (subscribers : list Subscriber) (args : Args) (t : Q)
        (n : nat) (rest : list Event) :
  mock_mode args = Some t → (n < 9)%nat →
  createWrappedVideo amb subscribers args false
                     (repeat TimerFired n ++ Abort :: TimerFired :: rest)
  = (map (λ j, OnProgress (mock_counter t j / t)) (seq 0 (S n)),
     Thrown (cancelled (year args))).
Proof.
  intros Hmode Hn. pose proof (mock_mode_positive args t Hmode) as Ht.
  unfold createWrappedVideo. rewrite Hmode. unfold mock_run.
  change 0%Q with (mock_counter t 0) at 1 2.
  rewrite (mock_sleep_timers (year args) t n Ht 0 (Abort :: TimerFired :: rest)) by lia.
  rewrite mock_iteration_pass by (assumption || lia).
  cbn [fst snd Nat.add mock_sleep].
  change (mock_counter t n + t / 10)%Q with (mock_counter t (S n)).
  rewrite mock_iteration_pass by (assumption || lia).
  cbn [seq map]. now rewrite app_nil_r.
Qed.

Lemma mock_run_notices_abort_at_next_pass_witness :
  (createWrappedVideo Samples.kody [] Samples.mock_args false
     (repeat TimerFired 3 ++ Abort :: TimerFired :: [])).2
  = Thrown (cancelled 2026).
Proof.
  rewrite (mock_run_notices_abort_at_next_pass
             Samples.kody [] Samples.mock_args 1000%Q 3 [] eq_refl); [reflexivity | lia].
Defined.




End RenderingFacts.

(** ** More on the scene *)

Section SceneTiming.
Import Video.

Lemma longestEntry_cons (a : Entry) (l : list Entry) :
  ∃ e, longestEntry (a :: l) = Some e.
Proof.
  unfold longestEntry. cbn [head fold_left length_or_0]. rewrite Nat.ltb_irrefl.
  destruct (longest_fold l [] a []) as (q1 & e & q2 & Hf & _); [constructor .. |].
  now exists e.
Qed.

Lemma shortestEntry_cons (a : Entry) (l : list Entry) :
  ∃ e, shortestEntry (a :: l) = Some e.
Proof.
  unfold shortestEntry. cbn [head fold_left length_or_0]. rewrite Nat.ltb_irrefl.
  destruct (shortest_fold l [] a []) as (q1 & e & q2 & Hf & _); [constructor .. |].
  now exists e.
Qed.

(** Eight texts without entries, nine with. *)
Lemma texts_length (amb : Ambient) (entries : list Entry) (tags : list Tag) (year : Z) :
  length (texts amb entries tags year) = match entries with [] => 8 | _ => 9 end.
Proof.
  destruct entries as [|a l].
  - unfold texts. destruct (0 <? length tags)%nat; reflexivity.
  - unfold texts. destruct (longestEntry_cons a l) as [e ->].
    destruct (shortestEntry_cons a l) as [e' ->].
    destruct (0 <? length tags)%nat; reflexivity.
Qed.

Lemma overlays_lookup (amb : Ambient) (entries : list Entry) (tags : list Tag)
      (year : Z) (i : nat) (o : Overlay) :
  overlays amb entries tags year !! i = Some o →
  startTime o
  = (totalDurationSeconds / Qnat (length (texts amb entries tags year)) * Qnat i)%Q
  ∧ endTime o
    = (totalDurationSeconds / Qnat (length (texts amb entries tags year))
       * Qnat (i + 1))%Q.
Proof.
  unfold overlays. rewrite list_lookup_imap.
  destruct (texts amb entries tags year !! i) as [t |]; [| discriminate].
  cbn. intros [= <-]. split; reflexivity.
Qed.

Lemma overlays_length (amb : Ambient) (entries : list Entry) (tags : list Tag) (year : Z) :
  length (overlays amb entries tags year) = length (texts amb entries tags year).
Proof. unfold overlays. apply length_imap. Qed.

(** X17.  The overlays of a scene tile the sixty seconds of the video:
    there are eight of them when there is no entry and nine otherwise, the
    first starts at 0, each one ends where the next starts, and the last
    ends at 60. *)
Theorem overlays_tile_the_minute
        (amb : Ambient) (entries : list Entry) (tags : list Tag) (year : Z) :
  let os := overlays amb entries tags year in
  length os = match entries with [] => 8 | _ => 9 end
  ∧ (∀ o, head os = Some o → (startTime o == 0)%Q)
  ∧ (∀ i o o', os !! i = Some o → os !! S i = Some o' → (endTime o == startTime o')%Q)
  ∧ (∀ o, last os = Some o → (endTime o == 60)%Q).
Proof.
  intros os. subst os.
  pose proof (texts_length amb entries tags year) as Hlen.
  split; [| split; [| split]].
  - now rewrite overlays_length.
  - intros o Ho. rewrite head_lookup in Ho.
    destruct (overlays_lookup amb entries tags year 0 o Ho) as [-> _].
    change (Qnat 0) with 0%Q. ring.
  - intros i o o' Ho Ho'.
    destruct (overlays_lookup amb entries tags year i o Ho) as [_ ->].
    destruct (overlays_lookup amb entries tags year (S i) o' Ho') as [-> _].
    now rewrite Nat.add_1_r.
  - intros o Ho. rewrite last_lookup, overlays_length in Ho.
    destruct (overlays_lookup amb entries tags year _ o Ho) as [_ ->].
    rewrite Hlen. unfold totalDurationSeconds.
    destruct entries; reflexivity.
Qed.

Lemma overlays_tile_the_minute_witness :
  ∃ o, last (overlays Samples.kody [Samples.sample_entry] [] 2026) = Some o
       ∧ (endTime o == 60)%Q.
Proof.
  eexists. split; [reflexivity |].
  apply (proj2 (proj2 (proj2 (overlays_tile_the_minute
                                Samples.kody [Samples.sample_entry] [] 2026)))).
  reflexivity.
Defined.

End SceneTiming.

(** ** Completion of identifiers *)

Section CompletionFacts.
Import Completion.

Lemma append_cons (c : Ascii.ascii) (v b : string) :
  String c v +:+ b = String c (v +:+ b).
Proof. reflexivity. Qed.

Lemma append_nil (b : string) : "" +:+ b = b.
Proof. reflexivity. Qed.

Lemma prefix_spec (v s : string) :
  String.prefix v s = true ↔ ∃ b, s = v +:+ b.
Proof.
  revert s. induction v as [|c v IH]; intros s.
  - destruct s; cbn; (split; [intros _; eexists; reflexivity | reflexivity]).
  - destruct s as [|c' s]; cbn [String.prefix].
    { split; [discriminate | intros [b Hb]; rewrite append_cons in Hb; discriminate]. }
    destruct (Ascii.ascii_dec c c') as [<- | Hne].
    + rewrite IH. split; intros [b Hb]; exists b; rewrite append_cons in *; congruence.
    + split; [discriminate |]. intros [b Hb]. rewrite append_cons in Hb. congruence.
Qed.

(** [includes] is the substring test. *)
Lemma includes_spec (s v : string) :
  includes s v = true ↔ ∃ a b, s = a +:+ v +:+ b.
Proof.
  induction s as [|c s IH]; cbn [includes].
  - rewrite orb_false_r, prefix_spec. split.
    + intros [b Hb]. now exists "", b.
    + intros (a & b & H). destruct a as [|c a]; [now exists b |].
      rewrite append_cons in H. discriminate.
  - rewrite orb_true_iff, prefix_spec, IH. split.
    + intros [[b Hb] | (a & b & H)]; [now exists "", b |].
      exists (String c a), b. rewrite append_cons. now rewrite H.
    + intros (a & b & H). destruct a as [|c' a]; [left; now exists b |].
      right. exists a, b. rewrite append_cons in H. congruence.
Qed.

Lemma filter_sublist {A : Type} (f : A → bool) (l : list A) :
  List.filter f l `sublist_of` l.
Proof.
  induction l as [|x l IH]; cbn [List.filter]; [constructor |].
  destruct (f x); [now apply sublist_skip | now apply sublist_cons].
Qed.

Lemma includes_false (s v : string) :
  includes s v = false ↔ ¬ ∃ a b, s = a +:+ v +:+ b.
Proof.
  rewrite <- includes_spec. destruct (includes s v).
  - split; [discriminate | intros H; now destruct H].
  - split; [intros _ H; discriminate H | reflexivity].
Qed.

(** X18.  The completion of an identifier suggests exactly the decimal
    renderings of the stored identifiers in which the typed text occurs,
    in the order of the store: all of them for the empty text, and for an
    identifier typed in full at least that identifier.  The completion of
    a video name suggests exactly the listed names in which the typed text
    occurs, in the order of the listing.  The order is kept in that the
    answer is the listing with the other names dropped, and that the
    answer for a listing is the answer for its first part followed by the
    answer for the rest, down to one record, which is suggested or not. *)
Theorem completion_suggests_matching_ids
        (ids : list Id) (videos : list string) (value : string) :
  complete_ids ids "" = map pretty ids
  ∧ (∀ s, s ∈ complete_ids ids value
          ↔ (∃ id, id ∈ ids ∧ s = pretty id) ∧ ∃ a b, s = a +:+ value +:+ b)
  ∧ (∀ id, id ∈ ids → pretty id ∈ complete_ids ids (pretty id))
  ∧ (∀ v, v ∈ complete_videos videos value
          ↔ v ∈ videos ∧ ∃ a b, v = a +:+ value +:+ b)
  ∧ complete_ids ids value `sublist_of` map pretty ids
  ∧ complete_videos videos value `sublist_of` videos
  ∧ (∀ first rest,
       ids = (first ++ rest)%list →
       complete_ids ids value
       = (complete_ids first value ++ complete_ids rest value)%list)
  ∧ (∀ first rest,
       videos = (first ++ rest)%list →
       complete_videos videos value
       = (complete_videos first value ++ complete_videos rest value)%list)
  ∧ (∀ id, ((∃ a b, pretty id = a +:+ value +:+ b) →
            complete_ids [id] value = [pretty id])
           ∧ ((¬ ∃ a b, pretty id = a +:+ value +:+ b) →
              complete_ids [id] value = []))
  ∧ (∀ v, ((∃ a b, v = a +:+ value +:+ b) → complete_videos [v] value = [v])
          ∧ ((¬ ∃ a b, v = a +:+ value +:+ b) → complete_videos [v] value = [])).
Proof.
  assert (Hmem : ∀ v s, s ∈ complete_ids ids v
                        ↔ (∃ id, id ∈ ids ∧ s = pretty id) ∧ ∃ a b, s = a +:+ v +:+ b).
  { intros v s. unfold complete_ids.
    rewrite list_elem_of_In, filter_In, <- list_elem_of_In, list_elem_of_fmap,
      includes_spec.
    split; intros [(id & H1 & H2) H]; (split; [exists id |]); auto. }
  split; [| split; [| split; [| split]]].
  - unfold complete_ids. induction (map pretty ids) as [|x l IH]; [reflexivity |].
    cbn [List.filter]. replace (includes x "") with true; [now rewrite IH |].
    symmetry. apply includes_spec. now exists "", x.
  - apply Hmem.
  - intros id Hid. apply Hmem. split; [now exists id |].
    exists "", "". rewrite append_nil.
    induction (pretty id) as [|c p IH]; [reflexivity |].
    rewrite append_cons. now rewrite <- IH.
  - intros v. unfold complete_videos.
    now rewrite list_elem_of_In, filter_In, <- list_elem_of_In, includes_spec.
  - split; [apply filter_sublist |]. split; [apply filter_sublist |].
    split; [| split; [| split]].
    + intros first rest ->. unfold complete_ids.
      now rewrite map_app, List.filter_app.
    + intros first rest ->. unfold complete_videos. now rewrite List.filter_app.
    + intros id. unfold complete_ids. cbn [map List.filter]. split.
      * intros H. apply includes_spec in H. now rewrite H.
      * intros H. apply includes_false in H. now rewrite H.
    + intros v. unfold complete_videos. cbn [List.filter]. split.
      * intros H. apply includes_spec in H. now rewrite H.
      * intros H. apply includes_false in H. now rewrite H.
Qed.

(** Identifier 17 typed in full is suggested, and so it is for the
    text 7. *)
Lemma completion_suggests_matching_ids_witness :
  pretty 17%N ∈ complete_ids [7%N; 17%N; 3%N] (pretty 17%N)
  ∧ complete_ids [17%N] "7" = [pretty 17%N].
Proof.
  split.
  - apply (proj1 (proj2 (proj2 (completion_suggests_matching_ids
                                  [7%N; 17%N; 3%N] [] (pretty 17%N))))).
    apply elem_of_cons. right. apply elem_of_cons. now left.
  - apply (proj1 (proj2 (proj2 (proj2 (proj2 (proj2 (proj2 (proj2 (proj2
             (completion_suggests_matching_ids [] [] "7"))))))))) 17%N).
    exists "1", "". reflexivity.
Defined.

End CompletionFacts.
